(** * A shallow embedding of kindjie/minesweeper

    [minesweeper.py] : [BoardState] (grid, mines, flood-fill reveal) and
    [MineSweeper] (the game state machine driven by [update]);
    [minesweeper_ai.py] : [MineSweeperAI._calc_risk], the risk heuristic.

    Cell states are the integers of the source ([EMPTY = 0], counts [1..8],
    [HIDDEN = 1 << 5], [MINE = 1 << 6], [FLAG = 1 << 7]).  The grid is the
    source's list of rows; sets of positions ([_mines], [visited],
    [_adjacent_pos]) are stdpp's [gset (Z * Z)], and iterating over a Python
    set is iterating over [elements] (an order fixed by the set, not by the
    program, as in CPython).  The float arithmetic of the source
    ([density], [_calc_risk]) is taken as exact rational arithmetic ([Q]). *)

From Stdlib Require Import ZArith QArith Qround Sorting.Sorted.
From Stdlib Require String Ascii.
From stdpp Require Import base list gmap sets list_numbers.
Import (notations) String.

Open Scope Z_scope.

Abbreviation pos := (Z * Z)%type.

Module BoardState.

Definition EMPTY : Z := 0.
(* Reserved 1-8 for mine counts. *)
Definition HIDDEN : Z := Z.shiftl 1 5.
Definition MINE : Z := Z.shiftl 1 6.
Definition FLAG : Z := Z.shiftl 1 7.

(** The attributes of a [BoardState] object. *)
Record t := mk {
  width : Z;
  height : Z;
  num_mines : Z;
  mines : gset pos;
  rows : list (list Z)
}.

Definition with_rows (b : t) (rs : list (list Z)) : t :=
  mk (width b) (height b) (num_mines b) (mines b) rs.

Definition is_in_bounds (b : t) (x y : Z) : bool :=
  (0 <=? x) && (x <? width b) && (0 <=? y) && (y <? height b).

(** [self._rows[y][x] = v]: every call site indexes inside the board. *)
Definition rows_store (rs : list (list Z)) (x y v : Z) : list (list Z) :=
  alter (fun r => <[Z.to_nat x := v]> r) (Z.to_nat y) rs.

Definition set (b : t) (x y v : Z) : t :=
  if is_in_bounds b x y then with_rows b (rows_store (rows b) x y v) else b.

Definition get (b : t) (x y : Z) : option Z :=
  if is_in_bounds b x y then rows b !! Z.to_nat y ≫= (fun r => r !! Z.to_nat x)
  else None.

Definition clamp_pos (b : t) (p : pos) : pos :=
  (Z.min (width b - 1) (Z.max p.1 0), Z.min (height b - 1) (Z.max p.2 0)).

(** [set(itertools.product([x-1, x, x+1], [y-1, y, y+1]))] *)
Definition adjacent_pos (x y : Z) : gset pos :=
  list_to_set (list_prod [x - 1; x; x + 1] [y - 1; y; y + 1]).

Definition count_adjacent_mines (b : t) (x y : Z) : Z :=
  Z.of_nat (size (adjacent_pos x y ∩ mines b)).

(** [list(itertools.product(xrange(width), xrange(height)))] *)
Definition positions (w h : Z) : list pos := list_prod (seqZ 0 w) (seqZ 0 h).

(** [reset] given the list [l] returned by [random.sample]. *)
Definition reset (b : t) (l : list pos) : t :=
  mk (width b) (height b) (num_mines b) (list_to_set l)
     (replicate (Z.to_nat (height b)) (replicate (Z.to_nat (width b)) HIDDEN)).

Definition reveal_mines (b : t) : t :=
  foldl (fun b' (m : pos) => set b' m.1 m.2 MINE) b (elements (mines b)).

(** The local state of [reveal_from]: [visited], the deque [to_visit]
    (used as a stack: [append] pushes and [pop] pops on the right, which
    is the head of this list) and the board it writes. *)
Record reveal_state := RS {
  visited : gset pos;
  to_visit : list pos;
  board : t
}.

(** The inner function [fill(x, y)]. *)
Definition fill (s : reveal_state) (x y : Z) : reveal_state :=
  let b := board s in
  if negb (is_in_bounds b x y) || bool_decide ((x, y) ∈ visited s) then s
  else
    let vis := {[(x, y)]} ∪ visited s in
    let num_adjacent_mines := count_adjacent_mines b x y in
    if 0 <? num_adjacent_mines then
      RS vis (to_visit s) (with_rows b (rows_store (rows b) x y num_adjacent_mines))
    else
      RS vis (foldl (fun st p => p :: st) (to_visit s) (elements (adjacent_pos x y)))
         (with_rows b (rows_store (rows b) x y EMPTY)).

(** [while len(to_visit) > 0: fill( *to_visit.pop())], run for at most
    [fuel] iterations; [None] when the fuel runs out first. *)
Fixpoint reveal_loop (fuel : nat) (s : reveal_state) : option reveal_state :=
  match fuel with
  | O => None
  | S fuel' =>
      match to_visit s with
      | [] => Some s
      | p :: rest => reveal_loop fuel' (fill (RS (visited s) rest (board s)) p.1 p.2)
      end
  end.

(** A bound on the number of iterations of the loop: each iteration
    either pops a position without adding work or visits a new in-bounds
    position and pushes at most nine. *)
Definition reveal_fuel (b : t) : nat :=
  (9 * (Z.to_nat (width b) * Z.to_nat (height b)) + 2)%nat.

Definition reveal_start (b : t) (x y : Z) : reveal_state := RS ∅ [(x, y)] b.

Definition reveal_from (b : t) (x y : Z) : t :=
  match reveal_loop (reveal_fuel b) (reveal_start b x y) with
  | Some s => board s
  | None => b
  end.

(** Python's [int(q)] on a number: truncation towards zero. *)
Definition py_int (q : Q) : Z := Z.quot (Qnum q) (Zpos (Qden q)).

(** [random.sample(population, k)] (library code): it raises [ValueError]
    unless [0 <= k <= len(population)], and otherwise returns the
    elements found at [k] distinct indices of [population]. *)
Definition sample_ok (population : list pos) (k : Z) : bool :=
  (0 <=? k) && (k <=? Z.of_nat (length population)).


(** [BoardState(height, width, density)], where [l] is what the call
    [random.sample] in [_create_mines] returns; [None] when a
    [ValueError] is raised. *)
Definition new (height width : Z) (density : Q) (l : list pos) : option t :=
  if negb (Qle_bool 0 density && Qle_bool density 1) then None
  else if width <=? 1 then None
  else if height <=? 1 then None
  else
    let max_possible_mines := width * height - 1 in
    let num_mines := Z.max 1 (py_int (inject_Z max_possible_mines * density)) in
    if negb (sample_ok (positions width height) num_mines) then None
    else Some (reset (mk width height num_mines ∅ []) l).

End BoardState.

(** Modelled from the spec: [game.State], imported by [minesweeper.py] from
    the module [game], which is not part of the sources: the states
    Starting, Active, Victory and Defeat, [GAME_OVER] covering the last two. *)
Inductive State := STARTING | ACTIVE | VICTORY | DEFEAT.

Definition is_starting (s : State) : bool :=
  match s with STARTING => true | _ => false end.

Definition is_game_over (s : State) : bool :=
  match s with VICTORY | DEFEAT => true | _ => false end.

Module CmdType.
Definition NONE : Z := 0.
Definition TOGGLE_FLAG : Z := Z.shiftl 1 1.
Definition REVEAL : Z := Z.shiftl 1 3.
Definition LEFT : Z := Z.shiftl 1 5.
Definition RIGHT : Z := Z.shiftl 1 6.
Definition UP : Z := Z.shiftl 1 7.
Definition DOWN : Z := Z.shiftl 1 8.
Definition MOVE : Z := Z.lor (Z.lor LEFT RIGHT) (Z.lor UP DOWN).
End CmdType.

(** [Command(type, x, y)] *)
Record Command := Cmd { type : Z; cx : Z; cy : Z }.

Definition cmd_pos (c : Command) : pos := (cx c, cy c).

Definition has_bit (t bit : Z) : bool := negb (Z.land t bit =? 0).

Module MineSweeper.
Import BoardState.

(** The attributes of a [MineSweeper] object that the rules read or
    write ([title], [footer], [message] and the timer are display only). *)
Record game := G {
  board : BoardState.t;
  state : State;
  cursor_pos : pos;
  num_flags : Z;
  num_mines_flagged : Z
}.

Definition with_board (g : game) (b : BoardState.t) : game :=
  G b (state g) (cursor_pos g) (num_flags g) (num_mines_flagged g).
Definition with_state (g : game) (s : State) : game :=
  G (board g) s (cursor_pos g) (num_flags g) (num_mines_flagged g).
Definition with_cursor (g : game) (p : pos) : game :=
  G (board g) (state g) p (num_flags g) (num_mines_flagged g).
Definition with_counts (g : game) (nf nmf : Z) : game :=
  G (board g) (state g) (cursor_pos g) nf nmf.

Definition DIFFICULTY_STEP : Q := 1 # 40.

(** [reset], with [l] the list sampled by [self._board.reset()]. *)
Definition reset (g : game) (l : list pos) : game :=
  G (BoardState.reset (board g) l) STARTING (0, 0) 0 0.

(** [MineSweeper(width, height, difficulty)]; [l1] and [l2] are the
    lists sampled by the two board resets it performs. *)
Definition new (width height difficulty : Z) (l1 l2 : list pos) : option game :=
  let max_difficulty := 40 in
  if negb ((0 <=? difficulty) && (difficulty <=? max_difficulty)) then None
  else
    match BoardState.new height width (DIFFICULTY_STEP * inject_Z difficulty) l1 with
    | None => None
    | Some b => Some (reset (G b STARTING (0, 0) 0 0) l2)
    end.

Definition start (g : game) : game := with_state g ACTIVE.

Definition end_game (g : game) (is_victory : bool) : game :=
  if is_victory then with_state g VICTORY
  else G (reveal_mines (board g)) DEFEAT (cursor_pos g) (num_flags g) (num_mines_flagged g).

Definition handle_movement (g : game) (c : Command) : game :=
  let nx0 := cx c in
  let ny0 := cy c in
  let ny1 := if has_bit (type c) CmdType.DOWN then ny0 + 1 else ny0 in
  let nx1 := if has_bit (type c) CmdType.LEFT then nx0 - 1 else nx0 in
  let nx2 := if has_bit (type c) CmdType.RIGHT then nx1 + 1 else nx1 in
  let ny2 := if has_bit (type c) CmdType.UP then ny1 - 1 else ny1 in
  with_cursor g (clamp_pos (board g) (nx2, ny2)).

Definition handle_reveal (g : game) (c : Command) : game :=
  if negb (has_bit (type c) CmdType.REVEAL) then g
  else if negb (bool_decide (get (board g) (cx c) (cy c) = Some HIDDEN)) then g
  else if bool_decide (cursor_pos g ∈ mines (board g)) then end_game g false
  else with_board g (reveal_from (board g) (cursor_pos g).1 (cursor_pos g).2).

Definition all_mines_found (g : game) : bool :=
  let all_flagged := num_mines_flagged g =? BoardState.num_mines (board g) in
  let no_empty_flagged := num_mines_flagged g <=? BoardState.num_mines (board g) in
  all_flagged && no_empty_flagged.

Definition handle_toggle_flag (g : game) (c : Command) : game :=
  if negb (has_bit (type c) CmdType.TOGGLE_FLAG) then g
  else
    let b := board g in
    let '(x, y) := cursor_pos g in
    if bool_decide (get b x y = Some HIDDEN) then
      let g1 := G (set b x y FLAG) (state g) (cursor_pos g) (num_flags g + 1)
                  (num_mines_flagged g) in
      let g2 := if bool_decide (cmd_pos c ∈ mines b)
                then with_counts g1 (num_flags g1) (num_mines_flagged g1 + 1) else g1 in
      if all_mines_found g2 then end_game g2 true else g2
    else
      let g1 := G (with_rows b (rows_store (rows b) x y HIDDEN)) (state g) (cursor_pos g)
                  (num_flags g - 1) (num_mines_flagged g) in
      if bool_decide (cmd_pos c ∈ mines b)
      then with_counts g1 (num_flags g1) (num_mines_flagged g1 - 1) else g1.

(** [update(command)]; [None] is Python's [None] command. *)
Definition update (g : game) (command : option Command) : game :=
  if is_starting (state g) then start g
  else
    match command with
    | None => g
    | Some c =>
        if (type c =? CmdType.NONE) || is_game_over (state g) then g
        else handle_toggle_flag (handle_reveal (handle_movement g c) c) c
    end.

(** The game states the program can reach: a constructed game, then any
    sequence of [update] calls and [reset]s (with any sampled mines). *)
Inductive reachable : game -> Prop :=
| reach_new w h d l1 l2 g : new w h d l1 l2 = Some g -> reachable g
| reach_update g c : reachable g -> reachable (update g c)
| reach_reset g l : reachable g -> reachable (reset g l).

End MineSweeper.

Module MineSweeperAI.
Import BoardState MineSweeper.

(** Modelled from the spec: [board.num_hidden] and [game.num_flags], which
    [_calc_risk] reads but which [minesweeper.py] does not define: the
    spec's totalHidden (the number of cells in the [Hidden] state) and
    flagsPlaced (the game's flag counter [_num_flags]). *)
Definition num_hidden (b : BoardState.t) : Z :=
  Z.of_nat (length (filter (fun v => bool_decide (v = HIDDEN)) (concat (rows b)))).
Definition game_num_flags (g : game) : Z := MineSweeper.num_flags g.

(** [_count_neighbours_state(x, y, state)]; the per-turn cache only
    memoises this pure function of the (unchanged) board. *)
Definition count_neighbours_state (b : BoardState.t) (x y st : Z) : Z :=
  Z.of_nat (length (filter (fun p : pos => bool_decide (get b p.1 p.2 = Some st))
                           (elements (adjacent_pos x y)))).

Definition is_definite_safe (b : BoardState.t) (x y : Z) : bool :=
  existsb (fun p : pos =>
             bool_decide (Some (count_neighbours_state b p.1 p.2 FLAG) = get b p.1 p.2))
          (elements (adjacent_pos x y)).

Definition is_definite_mine (b : BoardState.t) (x y : Z) : bool :=
  existsb (fun n : pos =>
             let num_flagged_neighbours_of_n := count_neighbours_state b n.1 n.2 FLAG in
             let num_hidden_neighbours_of_n := count_neighbours_state b n.1 n.2 HIDDEN in
             match get b n.1 n.2 with
             | None => false
             | Some st => (st <=? 8) &&
                          (num_hidden_neighbours_of_n <=? st - num_flagged_neighbours_of_n)
             end)
          (elements (adjacent_pos x y)).

(** Python's float division, [None] for [ZeroDivisionError]. *)
Definition py_div (a b : Q) : option Q :=
  if Qeq_bool b 0 then None else Some (a / b)%Q.

Definition prob_mine (b : BoardState.t) (general_prob : Q) (ax ay : Z) : option Q :=
  match get b ax ay with
  | None => Some (general_prob / 2)%Q
  | Some v =>
      if 8 <? v then Some general_prob
      else
        let hidden := count_neighbours_state b ax ay HIDDEN in
        let flags := count_neighbours_state b ax ay FLAG in
        py_div (inject_Z (v - flags)) (inject_Z hidden)
  end.

Definition Qsum (l : list Q) : Q := fold_right Qplus 0%Q l.

(** [_calc_risk(x, y)], returning the [risk] field of the [CellRisk];
    [None] when a [ZeroDivisionError] is raised. *)
Definition calc_risk (g : game) (x y : Z) : option Q :=
  let b := board g in
  if is_definite_safe b x y then Some 0%Q
  else if is_definite_mine b x y then Some 1%Q
  else
    match py_div (inject_Z (BoardState.num_mines b - game_num_flags g))
                 (inject_Z (num_hidden b - game_num_flags g)) with
    | None => None
    | Some general_prob =>
        match mapM (fun p : pos => prob_mine b general_prob p.1 p.2)
                   (elements (adjacent_pos x y)) with
        | None => None
        | Some probabilities =>
            py_div (Qsum probabilities) (inject_Z (Z.of_nat (length probabilities)))
        end
    end.

End MineSweeperAI.

(** * Definitions that follow the spec's words, to compare with the code *)
Module SpecSide.
Import BoardState.

(** §4.2 step 3: the command's carried position moved by its directional
    deltas (Up: y-1, Down: y+1, Left: x-1, Right: x+1). *)
Definition moved_pos (c : Command) : pos :=
  (cx c + (if has_bit (type c) CmdType.RIGHT then 1 else 0)
        - (if has_bit (type c) CmdType.LEFT then 1 else 0),
   cy c + (if has_bit (type c) CmdType.DOWN then 1 else 0)
        - (if has_bit (type c) CmdType.UP then 1 else 0)).

(** §4.1: the 8-neighbour set of a position (the Moore neighbourhood
    without the position itself), clipped to the bounds of the board. *)
Definition neighbours8 (b : t) (x y : Z) : gset pos :=
  list_to_set (filter (fun p : pos => is_in_bounds b p.1 p.2 = true)
    [(x - 1, y - 1); (x, y - 1); (x + 1, y - 1);
     (x - 1, y);                 (x + 1, y);
     (x - 1, y + 1); (x, y + 1); (x + 1, y + 1)]).

End SpecSide.

(** * Concrete games

    A 3x3 game at difficulty 0, which has [max(1, int(8 * 0.0)) = 1] mine;
    both samples of the construction return [[(0, 0)]]. *)
Module Scenarios.
Import BoardState MineSweeper.

Definition empty_game : game := G (mk 0 0 0 ∅ []) STARTING (0, 0) 0 0.

Definition game0 : game :=
  match MineSweeper.new 3 3 0 [(0, 0)] [(0, 0)] with Some g => g | None => empty_game end.

Definition run (g : game) (cs : list (option Command)) : game := foldl update g cs.

(** The first update only starts the game. *)
Definition started : game := run game0 [None].

(** Reveal the centre (a [1]), then flag two cells that are not mines. *)
Definition centre_revealed : game := run started [Some (Cmd CmdType.REVEAL 1 1)].
Definition over_flagged : game :=
  run centre_revealed [Some (Cmd CmdType.TOGGLE_FLAG 2 2); Some (Cmd CmdType.TOGGLE_FLAG 2 1)].

(** Reveal the corner opposite the mine (a flood-fill). *)
Definition corner_revealed : game := run started [Some (Cmd CmdType.REVEAL 2 2)].

(** Flag the centre (not a mine). *)
Definition centre_flagged : game := run started [Some (Cmd CmdType.TOGGLE_FLAG 1 1)].

(** Then flag the mine. *)
Definition flag_then_win : game :=
  run centre_flagged [Some (Cmd CmdType.TOGGLE_FLAG 0 0)].

(** Toggle a flag on the revealed (empty) corner. *)
Definition unflag_revealed : game :=
  run corner_revealed [Some (Cmd CmdType.TOGGLE_FLAG 2 2)].

End Scenarios.

(** * The display and key-mapping functions of [minesweeper.py] *)

Module Strings.
Definition HIDDEN_CELL : String.string := "·"%string.
Definition MINE_CELL : String.string := "[bold]¤"%string.
Definition FLAG_CELL : String.string := "[bold]†"%string.
Definition EMPTY_CELL : String.string := " "%string.
Definition INVALID_CELL : String.string := "?"%string.
End Strings.

Module Render.
Import BoardState.

(** [str(cell)] for a single-digit [cell] (here [1 <= cell <= 8]). *)
Definition str_digit (cell : Z) : String.string :=
  String.String (Ascii.ascii_of_nat (48 + Z.to_nat cell)) String.EmptyString.

(** [map_cell_state_to_renderable(cell)]; on an integer [int(cell)] is
    [cell] and raises no [ValueError]. *)
Definition map_cell_state_to_renderable (cell : Z) : String.string :=
  if cell =? HIDDEN then Strings.HIDDEN_CELL
  else if cell =? MINE then Strings.MINE_CELL
  else if cell =? FLAG then Strings.FLAG_CELL
  else if cell =? EMPTY then Strings.EMPTY_CELL
  else if (0 <? cell) && (cell <=? 8) then str_digit cell
  else Strings.INVALID_CELL.

End Render.

(** The result of a [map_key_to_command] call: a [Command], or the
  [StopIteration] it raises for the quit key. *)
Inductive key_result := KeyCommand (c : Command) | KeyStopIteration.

(** The curses key codes [KEY_DOWN], [KEY_UP], [KEY_LEFT], [KEY_RIGHT]
  (library constants of ncurses). *)
Module Curses.
Definition KEY_DOWN : Z := 258.
Definition KEY_UP : Z := 259.
Definition KEY_LEFT : Z := 260.
Definition KEY_RIGHT : Z := 261.
End Curses.

(** [dict.get] on a dict with distinct keys, given as its list of items. *)
Fixpoint dict_lookup (d : list (Z * Z)) (k : Z) : option Z :=
match d with
| [] => None
| (k', v) :: d' => if k' =? k then Some v else dict_lookup d' k
end.

(** [CmdKey] and [map_key_to_command] of [minesweeper.py]. *)
Module CmdKey.
Import Curses.
Definition MOVEMENT_KEYS : list (Z * Z) :=
  [(KEY_DOWN, CmdType.DOWN); (KEY_LEFT, CmdType.LEFT);
   (KEY_RIGHT, CmdType.RIGHT); (KEY_UP, CmdType.UP)].
Definition REVEAL_KEY : Z := 32.       (* ord(' ') *)
Definition TOGGLE_FLAG_KEY : Z := 102. (* ord('f') *)
Definition QUIT_KEY : Z := 113.        (* ord('q') *)

Definition map_key_to_command (key_code x y : Z) : key_result :=
  if key_code =? QUIT_KEY then KeyStopIteration
  else match dict_lookup MOVEMENT_KEYS key_code with
       | Some t => KeyCommand (Cmd t x y)
       | None =>
           if key_code =? REVEAL_KEY then KeyCommand (Cmd CmdType.REVEAL x y)
           else if key_code =? TOGGLE_FLAG_KEY then KeyCommand (Cmd CmdType.TOGGLE_FLAG x y)
           else KeyCommand (Cmd CmdType.NONE x y)
       end.
End CmdKey.

(** [CmdKey] and [map_key_to_command] of [minesweeper_cli.py]. *)
Module CliCmdKey.
Import Curses.
Definition REVEAL_KEY : Z := 32.       (* ord(' ') *)
Definition TOGGLE_FLAG_KEY : Z := 102. (* ord('f') *)
Definition QUIT_KEY : Z := 113.        (* ord('q') *)
Definition J_KEY : Z := 106.           (* ord('j') *)
Definition K_KEY : Z := 107.           (* ord('k') *)
Definition H_KEY : Z := 104.           (* ord('h') *)
Definition L_KEY : Z := 108.           (* ord('l') *)

Definition MOVEMENT_KEYS : list (Z * Z) :=
  [(KEY_DOWN, CmdType.DOWN); (KEY_LEFT, CmdType.LEFT);
   (KEY_RIGHT, CmdType.RIGHT); (KEY_UP, CmdType.UP);
   (J_KEY, CmdType.DOWN); (K_KEY, CmdType.UP);
   (H_KEY, CmdType.LEFT); (L_KEY, CmdType.RIGHT)].

Definition map_key_to_command (key_code x y : Z) : key_result :=
  if key_code =? QUIT_KEY then KeyStopIteration
  else match dict_lookup MOVEMENT_KEYS key_code with
       | Some t => KeyCommand (Cmd t x y)
       | None =>
           if key_code =? REVEAL_KEY then KeyCommand (Cmd CmdType.REVEAL x y)
           else if key_code =? TOGGLE_FLAG_KEY then KeyCommand (Cmd CmdType.TOGGLE_FLAG x y)
           else KeyCommand (Cmd CmdType.NONE x y)
       end.
End CliCmdKey.

(** * Iteration and comparison of boards *)
Module BoardIter.
Import BoardState.

(** The indices [(y, x)] that [__iter__] walks:
    [for y in xrange(len(self._rows)) for x in xrange(len(self._rows[0]))];
    [self._rows[0]] is only read when there is a row. *)
Definition iter_index (b : t) : list (nat * nat) :=
  match rows b with
  | [] => []
  | r0 :: _ => list_prod (seq 0 (length (rows b))) (seq 0 (length r0))
  end.

(** [self.Cell(x, y, self._rows[y][x])]; [None] for an [IndexError]. *)
Definition cell_at (b : t) (yx : nat * nat) : option (Z * Z * Z) :=
  v ← rows b !! yx.1 ≫= (fun r => r !! yx.2);
  Some (Z.of_nat yx.2, Z.of_nat yx.1, v).

(** [list(iter(board))]; [None] when an [IndexError] is raised. *)
Definition board_iter (b : t) : option (list (Z * Z * Z)) := mapM (cell_at b) (iter_index b).

(** [all(other.get(x, y) == state for x, y, state in self)], which stops
    at the first cell that differs. *)
Fixpoint all_cells_eq (b other : t) (l : list (nat * nat)) : option bool :=
  match l with
  | [] => Some true
  | i :: l' =>
      match cell_at b i with
      | None => None
      | Some (x, y, st) =>
          if bool_decide (get other x y = Some st) then all_cells_eq b other l' else Some false
      end
  end.

(** [self == other]. *)
Definition board_eq (b other : t) : option bool := all_cells_eq b other (iter_index b).

End BoardIter.

(** * The decision step of [MineSweeperAI] *)
Module AIDecision.
Import BoardState MineSweeper MineSweeperAI BoardIter.

Definition NUM_GAMES : Z := 20.

Record CellRisk := CR { risk : Q; rx : Z; ry : Z }.

(** The test [risk == 0.0 or risk == 1.0] of [_moves], where [risk] is the
    [CellRisk] namedtuple returned by [_calc_risk]: a tuple never equals a
    float in Python, so each comparison is [False]. *)
Definition cell_risk_eq_float (r : CellRisk) (f : Q) : bool := false.

(** [list(self._moves(cells))]; [None] when a [_calc_risk] raises. *)
Fixpoint moves (g : game) (cells : list pos) : option (list CellRisk) :=
  match cells with
  | [] => Some []
  | (x, y) :: cs =>
      match calc_risk g x y with
      | None => None
      | Some r =>
          let cr := CR r x y in
          if cell_risk_eq_float cr 0 || cell_risk_eq_float cr 1 then Some [cr]
          else rest ← moves g cs; Some (cr :: rest)
      end
  end.

(** [sorted(risks, key=lambda r: r.risk)]: Python's sort is stable and
    compares keys with [<]; an insertion sort that puts each element after
    every earlier one whose key is not greater computes the same list. *)
Fixpoint insert_by_risk (r : CellRisk) (l : list CellRisk) : list CellRisk :=
  match l with
  | [] => [r]
  | r' :: l' => if Qle_bool (risk r') (risk r) then r' :: insert_by_risk r l' else r :: l
  end.

Definition sort_by_risk (l : list CellRisk) : list CellRisk :=
  foldl (fun acc r => insert_by_risk r acc) [] l.

(** The result of [next()]: a [Command], the [StopIteration] that ends
    the autoplay, or an exception ([IndexError], [ZeroDivisionError]). *)
Inductive ai_result := AICommand (c : Command) | AIStopIteration | AIError.

(** [next()]; [num_games] is [self._game.num_games].  Modelled from the
    spec: [num_games] is not an attribute of [MineSweeper] in the sources;
    it is the number of completed games (victories and defeats).  The
    footer text written on the way is display only. *)
Definition next (num_games : Z) (g : game) : ai_result :=
  if is_game_over (state g) then
    if NUM_GAMES <=? num_games then AIStopIteration else AICommand (Cmd CmdType.NONE 0 0)
  else
    match board_iter (board g) with
    | None => AIError
    | Some cells =>
        let hidden_cells := map (fun c : Z * Z * Z => (c.1.1, c.1.2))
                                (filter (fun c : Z * Z * Z => c.2 = HIDDEN) cells) in
        match moves g hidden_cells with
        | None => AIError
        | Some rs =>
            let risks := sort_by_risk rs in
            match risks, last risks with
            | best_reveal :: _, Some best_flag =>
                if Qle_bool 1 (risk best_flag)
                then AICommand (Cmd CmdType.TOGGLE_FLAG (rx best_flag) (ry best_flag))
                else AICommand (Cmd CmdType.REVEAL (rx best_reveal) (ry best_reveal))
            | _, _ => AIError
            end
        end
    end.

(** The per-turn cache of [_count_neighbours_state], keyed by
    [('count', (x, y, state))]; the method name is always ['count']. *)
Definition cache := gmap (Z * Z * Z) Z.

(** [_count_neighbours_state(x, y, state)] with its cache. *)
Definition count_neighbours_state_cached (b : BoardState.t) (c : cache) (x y st : Z)
  : Z * cache :=
  match c !! (x, y, st) with
  | Some v => (v, c)
  | None => let v := count_neighbours_state b x y st in (v, <[(x, y, st) := v]> c)
  end.

End AIDecision.

(** * Auxiliary notions of the proofs *)

Module Invariants.
Import BoardState MineSweeper.

(** The in-bounds positions of a board, as a set. *)
Definition inb (b : t) : gset pos := list_to_set (positions (width b) (height b)).

(** The termination measure of [reveal_from]'s loop. *)
Definition measure (s : reveal_state) : nat :=
  (9 * size (inb (BoardState.board s) ∖ visited s) + length (to_visit s))%nat.

(** What the loop has written once it has visited [V]: every visited
    in-bounds cell holds its adjacent-mine count ([EMPTY] is [0]). *)
Definition overwrite (b : t) (V : gset pos) (rs : list (list Z)) : list (list Z) :=
  imap (fun (y : nat) row =>
          imap (fun (x : nat) c =>
                  if bool_decide ((Z.of_nat x, Z.of_nat y) ∈ V)
                  then count_adjacent_mines b (Z.of_nat x) (Z.of_nat y) else c) row) rs.

(** No position that is visited or waiting to be visited is a mine. *)
Definition no_mine (b : t) (V : gset pos) (S : list pos) : Prop :=
  forall p, p ∈ V \/ p ∈ S -> p ∉ mines b.

(** Every mine position shows [HIDDEN] or [FLAG]. *)
Definition covered (b : BoardState.t) : Prop :=
  forall p, p ∈ mines b -> forall v, get b p.1 p.2 = Some v -> v = HIDDEN \/ v = FLAG.

Definition game_inv (g : game) : Prop := state g <> DEFEAT -> covered (board g).


(** The grid is [height] rows of [width] cells. *)
Definition rect (b : BoardState.t) : Prop :=
  length (rows b) = Z.to_nat (height b) /\
  Forall (fun r => length r = Z.to_nat (width b)) (rows b).

(** The cell values the game writes: a count [0..8], [HIDDEN], [MINE] or
    [FLAG]. *)
Definition valid_cell (v : Z) : Prop := (0 <= v <= 8) \/ v = HIDDEN \/ v = MINE \/ v = FLAG.

Definition cells_valid (b : BoardState.t) : Prop :=
  forall x y v, get b x y = Some v -> valid_cell v.

Definition board_wf (b : BoardState.t) : Prop :=
  1 < width b /\ 1 < height b /\ rect b /\ cells_valid b.

Definition game_wf (g : game) : Prop :=
  board_wf (board g) /\ is_in_bounds (board g) (cursor_pos g).1 (cursor_pos g).2 = true.

End Invariants.

(** Notions used by the further facts: the loop invariant of [reveal_from]'s
    flood-fill, the [CellRisk] that [_moves] yields for a cell, the order of
    [sorted(..., key=lambda r: r.risk)], and the count cache. *)
Module ExtraDefs.
Import BoardState MineSweeper MineSweeperAI AIDecision Invariants.

(** What the loop of [reveal_from] keeps about [visited] and [to_visit],
    started from [st]: the visited cells are in bounds; every cell visited
    or waiting is the start or a neighbour of a visited [0]-cell; and the
    start and every in-bounds neighbour of a visited [0]-cell is visited
    or waiting. *)
Definition flood_inv (b : t) (st : pos) (V : gset pos) (S : list pos) : Prop :=
  V ⊆ inb b /\
  (forall q, q ∈ V \/ q ∈ S ->
     q = st \/ exists p, p ∈ V /\ count_adjacent_mines b p.1 p.2 = 0 /\ q ∈ adjacent_pos p.1 p.2) /\
  (forall q, (q = st \/ exists p, p ∈ V /\ count_adjacent_mines b p.1 p.2 = 0 /\
                                  q ∈ adjacent_pos p.1 p.2) ->
     is_in_bounds b q.1 q.2 = true -> q ∈ V \/ q ∈ S).

(** The [CellRisk] yielded for the cell [p]. *)
Definition risk_of (g : game) (p : pos) : option CellRisk :=
  r ← calc_risk g p.1 p.2; Some (CR r p.1 p.2).

(** The order of the sort key. *)
Definition risk_le (a b : CellRisk) : Prop := (risk a <= risk b)%Q.

(** The count cache holds only correct counts. *)
Definition cache_ok (b : BoardState.t) (c : cache) : Prop :=
  forall k v, c !! k = Some v -> v = count_neighbours_state b k.1.1 k.1.2 k.2.

(** The results of successive [_count_neighbours_state] calls of one turn,
    through the cache ([next] clears it at the start of the turn). *)
Fixpoint cached_queries (b : BoardState.t) (c : cache) (qs : list (Z * Z * Z)) : list Z :=
  match qs with
  | [] => []
  | (x, y, st) :: qs' =>
      let '(v, c') := count_neighbours_state_cached b c x y st in v :: cached_queries b c' qs'
  end.
End ExtraDefs.


(** * Facts about the board *)

Module BoardFacts.
Import BoardState Invariants.

Lemma size_list_to_set_le (l : list pos) : (size (list_to_set l : gset pos) <= length l)%nat.
Proof.
  induction l as [|a l IH].
  - change (list_to_set [] : gset pos) with (∅ : gset pos). rewrite size_empty. lia.
  - change (list_to_set (a :: l) : gset pos) with ({[a]} ∪ list_to_set l : gset pos).
    rewrite size_union_alt, size_singleton. simpl.
    assert (Hsub : list_to_set l ∖ {[a]} ⊆ (list_to_set l : gset pos)) by set_solver.
    apply subseteq_size in Hsub. lia.
Qed.

Lemma size_adjacent_le x y : (size (adjacent_pos x y) <= 9)%nat.
Proof. unfold adjacent_pos. etransitivity; [apply size_list_to_set_le|]. simpl. lia. Qed.

Lemma elem_of_adjacent x y p :
  p ∈ adjacent_pos x y <-> x - 1 <= p.1 <= x + 1 /\ y - 1 <= p.2 <= y + 1.
Proof.
  destruct p as [px py]. unfold adjacent_pos.
  rewrite elem_of_list_to_set, list_elem_of_In, in_prod_iff, <- !list_elem_of_In.
  rewrite !elem_of_cons, !elem_of_nil. simpl. lia.
Qed.


Lemma elem_of_inb b x y : (x, y) ∈ inb b <-> is_in_bounds b x y = true.
Proof.
  unfold inb, positions, is_in_bounds.
  rewrite elem_of_list_to_set, list_elem_of_In, in_prod_iff, <- !list_elem_of_In.
  rewrite !elem_of_seqZ, !andb_true_iff, Z.leb_le, Z.ltb_lt, Z.leb_le, Z.ltb_lt. lia.
Qed.

Lemma size_inb_le b : (size (inb b) <= Z.to_nat (width b) * Z.to_nat (height b))%nat.
Proof.
  unfold inb, positions. etransitivity; [apply size_list_to_set_le|].
  rewrite length_prod, !length_seqZ. lia.
Qed.

Lemma length_push (st l : list pos) :
  length (foldl (fun st p => p :: st) st l) = (length l + length st)%nat.
Proof. revert st. induction l as [|a l IH]; intros st; simpl; [done|]. rewrite IH. simpl. lia. Qed.

Lemma elem_of_push (st l : list pos) p :
  p ∈ foldl (fun st p => p :: st) st l <-> p ∈ l \/ p ∈ st.
Proof.
  revert st. induction l as [|a l IH]; intros st; simpl.
  - rewrite elem_of_nil. tauto.
  - rewrite IH, !elem_of_cons. tauto.
Qed.


Lemma fill_board_dims s x y :
  width (board (fill s x y)) = width (board s) /\
  height (board (fill s x y)) = height (board s) /\
  mines (board (fill s x y)) = mines (board s).
Proof.
  unfold fill. destruct (_ || _); [done|]. destruct (0 <? _); done.
Qed.

Lemma inb_fill s x y : inb (board (fill s x y)) = inb (board s).
Proof. unfold inb. destruct (fill_board_dims s x y) as (-> & -> & _). done. Qed.

Lemma fill_measure V p rest B :
  (measure (fill (RS V rest B) p.1 p.2) < measure (RS V (p :: rest) B))%nat.
Proof.
  destruct p as [x y]. unfold measure. rewrite inb_fill. simpl.
  unfold fill; simpl.
  destruct (negb (is_in_bounds B x y) || bool_decide ((x, y) ∈ V)) eqn:Hc; simpl; [lia|].
  apply orb_false_iff in Hc as [Hb Hv].
  apply negb_false_iff in Hb. apply bool_decide_eq_false in Hv.
  apply elem_of_inb in Hb.
  assert (Heq : inb B ∖ V = {[(x, y)]} ∪ (inb B ∖ ({[(x, y)]} ∪ V))).
  { apply set_eq. intros q. rewrite elem_of_union, !elem_of_difference, elem_of_union,
      elem_of_singleton. destruct (decide (q = (x, y))); subst; tauto. }
  assert (Hs : size (inb B ∖ V) = S (size (inb B ∖ ({[(x, y)]} ∪ V)))).
  { rewrite Heq, size_union, size_singleton; [done|]. set_solver. }
  pose proof (size_adjacent_le x y).
  destruct (0 <? _); simpl.
  - rewrite Hs. lia.
  - rewrite length_push. unfold size, set_size in *. simpl in *. rewrite Hs. lia.
Qed.

Lemma reveal_loop_total n s :
  (measure s < n)%nat -> exists s', reveal_loop n s = Some s' /\ to_visit s' = [].
Proof.
  revert s. induction n as [|n IH]; intros s Hm; [lia|].
  simpl. destruct s as [V S B]. simpl. destruct S as [|p rest].
  - eauto.
  - apply IH. pose proof (fill_measure V p rest B). lia.
Qed.

Lemma reveal_start_measure b x y : (measure (reveal_start b x y) < reveal_fuel b)%nat.
Proof.
  unfold measure, reveal_start, reveal_fuel. simpl.
  pose proof (size_inb_le b).
  pose proof (subseteq_size (inb b ∖ ∅) (inb b) ltac:(set_solver)). lia.
Qed.


Lemma lookup_overwrite b V rs (i j : nat) :
  overwrite b V rs !! i ≫= (fun r => r !! j) =
  (fun c => if bool_decide ((Z.of_nat j, Z.of_nat i) ∈ V)
            then count_adjacent_mines b (Z.of_nat j) (Z.of_nat i) else c)
    <$> (rs !! i ≫= (fun r => r !! j)).
Proof.
  unfold overwrite. rewrite list_lookup_imap.
  destruct (rs !! i) as [r|]; simpl; [|done].
  rewrite list_lookup_imap. done.
Qed.

Lemma overwrite_empty b rs : overwrite b ∅ rs = rs.
Proof.
  unfold overwrite. apply list_eq. intros i. rewrite list_lookup_imap.
  destruct (rs !! i) as [r|]; simpl; [|done]. f_equal.
  apply list_eq. intros j. rewrite list_lookup_imap.
  destruct (r !! j); simpl; [|done].
  rewrite bool_decide_eq_false_2 by set_solver. done.
Qed.

Lemma overwrite_twice b V rs : overwrite b V (overwrite b V rs) = overwrite b V rs.
Proof.
  unfold overwrite. apply list_eq. intros i. rewrite !list_lookup_imap.
  destruct (rs !! i) as [r|]; simpl; [|done]. f_equal.
  apply list_eq. intros j. rewrite !list_lookup_imap.
  destruct (r !! j); simpl; [|done].
  case_bool_decide; done.
Qed.

Lemma store_overwrite b V rs x y :
  0 <= x -> 0 <= y ->
  rows_store (overwrite b V rs) x y (count_adjacent_mines b x y) =
  overwrite b ({[(x, y)]} ∪ V) rs.
Proof.
  intros Hx Hy. unfold rows_store, overwrite.
  apply list_eq. intros i. rewrite list_lookup_alter, !list_lookup_imap.
  destruct (rs !! i) as [r|] eqn:Er; simpl.
  - case_decide as Hi.
    + subst i. rewrite Er. simpl. f_equal.
      apply list_eq. intros j. rewrite list_lookup_insert, !list_lookup_imap, length_imap.
      destruct (r !! j) as [c|] eqn:Ec; simpl.
      * rewrite Z2Nat.id by lia.
        case_decide as Hj.
        -- destruct Hj as [<- _]. rewrite !Z2Nat.id by lia.
           rewrite bool_decide_eq_true_2 by set_solver. done.
        -- f_equal.
           assert (Z.to_nat x <> j).
           { intros <-. apply Hj. split; [done|]. apply lookup_lt_is_Some_1. by rewrite Ec. }
           assert ((Z.of_nat j, y) <> (x, y)) by (intros [=]; lia).
           repeat case_bool_decide; set_solver.
      * case_decide as Hj; [|done].
        destruct Hj as [<- Hl]. apply lookup_lt_is_Some_2 in Hl. rewrite Ec in Hl.
        by destruct Hl.
    + simpl. f_equal.
      apply list_eq. intros j. rewrite !list_lookup_imap.
      destruct (r !! j); simpl; [|done]. f_equal.
      assert ((Z.of_nat j, Z.of_nat i) <> (x, y)) by (intros [=]; lia).
      repeat case_bool_decide; set_solver.
  - case_decide as Hi; [subst i|]; rewrite ?Er; done.
Qed.

Lemma with_rows_with_rows b r1 r2 : with_rows (with_rows b r1) r2 = with_rows b r2.
Proof. done. Qed.

Lemma rows_with_rows b r : rows (with_rows b r) = r.
Proof. done. Qed.

Lemma with_rows_rows b : with_rows b (rows b) = b.
Proof. by destruct b. Qed.

Lemma count_nonneg b x y : 0 <= count_adjacent_mines b x y.
Proof. unfold count_adjacent_mines. lia. Qed.

(** [fill] reads the board only through its size and its mines: the
    positions it visits and pushes do not depend on the cells, and what
    it writes is the [overwrite] of the newly visited position. *)
Lemma fill_overwrite b V S x y r :
  fill (RS V S (with_rows b (overwrite b V r))) x y =
  RS (visited (fill (RS V S b) x y)) (to_visit (fill (RS V S b) x y))
     (with_rows b (overwrite b (visited (fill (RS V S b) x y)) r)).
Proof.
  unfold fill. cbn [board visited to_visit].
  change (is_in_bounds (with_rows b (overwrite b V r)) x y) with (is_in_bounds b x y).
  change (count_adjacent_mines (with_rows b (overwrite b V r)) x y)
    with (count_adjacent_mines b x y).
  destruct (negb (is_in_bounds b x y) || bool_decide ((x, y) ∈ V)) eqn:Hc; [done|].
  apply orb_false_iff in Hc as [Hb _]. apply negb_false_iff in Hb.
  unfold is_in_bounds in Hb. rewrite !andb_true_iff, !Z.leb_le, !Z.ltb_lt in Hb.
  destruct (0 <? count_adjacent_mines b x y) eqn:Hn; cbn [visited to_visit];
    rewrite !rows_with_rows.
  - rewrite with_rows_with_rows, store_overwrite by lia. done.
  - rewrite with_rows_with_rows.
    replace EMPTY with (count_adjacent_mines b x y).
    + rewrite store_overwrite by lia. done.
    + pose proof (count_nonneg b x y). apply Z.ltb_ge in Hn. unfold EMPTY. lia.
Qed.


Lemma fill_no_mine b V S x y :
  no_mine b V ((x, y) :: S) ->
  no_mine b (visited (fill (RS V S b) x y)) (to_visit (fill (RS V S b) x y)).
Proof.
  intros H. unfold fill. cbn [board visited to_visit].
  destruct (_ || _).
  { intros p Hp. apply H. rewrite elem_of_cons. tauto. }
  assert (Hxy : (x, y) ∉ mines b) by (apply H; right; left).
  destruct (0 <? count_adjacent_mines b x y) eqn:Hn; cbn [visited to_visit].
  - intros p [Hp|Hp].
    + apply elem_of_union in Hp as [Hp|Hp].
      * apply elem_of_singleton in Hp. by subst.
      * apply H. tauto.
    + apply H. rewrite elem_of_cons. tauto.
  - assert (H0 : size (adjacent_pos x y ∩ mines b) = 0%nat).
    { apply Z.ltb_ge in Hn. unfold count_adjacent_mines in Hn. lia. }
    apply size_empty_iff in H0.
    intros p [Hp|Hp].
    + apply elem_of_union in Hp as [Hp|Hp].
      * apply elem_of_singleton in Hp. by subst.
      * apply H. tauto.
    + apply elem_of_push in Hp as [Hp|Hp].
      * apply elem_of_elements in Hp.
        intros Hm. assert (Hi : p ∈ adjacent_pos x y ∩ mines b) by (by apply elem_of_intersection). apply H0 in Hi. by apply elem_of_empty in Hi.
      * apply H. rewrite elem_of_cons. tauto.
Qed.

Lemma reveal_loop_overwrite n b V S :
  (exists V', (no_mine b V S -> forall p, p ∈ V' -> p ∉ mines b) /\
     forall r, reveal_loop n (RS V S (with_rows b (overwrite b V r))) =
               Some (RS V' [] (with_rows b (overwrite b V' r)))) \/
  (forall r, reveal_loop n (RS V S (with_rows b (overwrite b V r))) = None).
Proof.
  revert V S. induction n as [|n IH]; intros V S; [by right|].
  destruct S as [|p rest].
  - left. exists V. split; [|done]. intros H p Hp. apply H. tauto.
  - cbn [reveal_loop to_visit visited board].
    destruct (IH (visited (fill (RS V rest b) p.1 p.2))
                 (to_visit (fill (RS V rest b) p.1 p.2))) as [(V' & HV' & Hr)|Hr].
    + left. exists V'. split.
      * intros H. apply HV'. destruct p as [x y]. apply fill_no_mine. done.
      * intros r. rewrite fill_overwrite. apply Hr.
    + right. intros r. rewrite fill_overwrite. apply Hr.
Qed.

Lemma reveal_from_overwrite b x y :
  exists V, (no_mine b ∅ [(x, y)] -> forall p, p ∈ V -> p ∉ mines b) /\
    forall r, reveal_from (with_rows b r) x y = with_rows b (overwrite b V r).
Proof.
  destruct (reveal_loop_overwrite (reveal_fuel b) b ∅ [(x, y)]) as [(V & HV & Hr)|Hr].
  - exists V. split; [done|]. intros r. unfold reveal_from.
    change (reveal_fuel (with_rows b r)) with (reveal_fuel b).
    unfold reveal_start. specialize (Hr r). rewrite overwrite_empty in Hr. rewrite Hr. done.
  - exfalso.
    destruct (reveal_loop_total (reveal_fuel b) (reveal_start b x y)
                (reveal_start_measure b x y)) as (s' & Hs' & _).
    specialize (Hr (rows b)). rewrite overwrite_empty, with_rows_rows in Hr.
    unfold reveal_start in Hs'. congruence.
Qed.

Lemma get_with_overwrite b V r x y :
  (x, y) ∉ V -> get (with_rows b (overwrite b V r)) x y = get (with_rows b r) x y.
Proof.
  intros Hn. unfold get. change (is_in_bounds (with_rows b _) x y) with (is_in_bounds b x y).
  destruct (is_in_bounds b x y) eqn:Hb; [|done].
  unfold is_in_bounds in Hb. rewrite !andb_true_iff, !Z.leb_le, !Z.ltb_lt in Hb.
  cbn [rows with_rows]. rewrite lookup_overwrite, !Z2Nat.id by lia.
  destruct (r !! Z.to_nat y ≫= _); simpl; [|done].
  rewrite bool_decide_eq_false_2 by done. done.
Qed.

(** [reveal_from] started on a position that is not a mine writes no
    mine position. *)
Lemma reveal_from_keeps_mines b x y :
  (x, y) ∉ mines b ->
  forall p, p ∈ mines b -> get (reveal_from b x y) p.1 p.2 = get b p.1 p.2.
Proof.
  intros Hxy p Hp.
  destruct (reveal_from_overwrite b x y) as (V & HV & Hr).
  rewrite <- (with_rows_rows b) at 1. rewrite Hr.
  destruct p as [px py]. simpl. rewrite get_with_overwrite, with_rows_rows; [done|].
  intros HpV. apply (HV ltac:(intros q [Hq|Hq]; [set_solver|]; apply list_elem_of_singleton in Hq; by subst) (px, py) HpV Hp).
Qed.

End BoardFacts.

Module CellFacts.
Import BoardState Invariants BoardFacts.

Lemma store_lookup_cases rs x y v (i j : nat) :
  rows_store rs x y v !! i ≫= (fun r => r !! j) = rs !! i ≫= (fun r => r !! j) \/
  rows_store rs x y v !! i ≫= (fun r => r !! j) = Some v.
Proof.
  unfold rows_store. rewrite list_lookup_alter.
  case_decide; [subst i|by left].
  destruct (rs !! Z.to_nat y) as [r|]; simpl; [|by left].
  rewrite list_lookup_insert. case_decide; auto.
Qed.

Lemma store_lookup_same rs x y v :
  rows_store rs x y v !! Z.to_nat y ≫= (fun r => r !! Z.to_nat x) = None \/
  rows_store rs x y v !! Z.to_nat y ≫= (fun r => r !! Z.to_nat x) = Some v.
Proof.
  unfold rows_store. rewrite list_lookup_alter_eq.
  destruct (rs !! Z.to_nat y) as [r|]; simpl; [|by left].
  rewrite list_lookup_insert. case_decide as H; [by right|].
  left. apply lookup_ge_None_2. apply not_and_l in H as [H|H]; [done|lia].
Qed.

Lemma get_store_cases b x y v px py :
  get (with_rows b (rows_store (rows b) x y v)) px py = get b px py \/
  get (with_rows b (rows_store (rows b) x y v)) px py = Some v.
Proof.
  unfold get. change (is_in_bounds (with_rows b _) px py) with (is_in_bounds b px py).
  destruct (is_in_bounds b px py); [|by left].
  rewrite rows_with_rows. apply store_lookup_cases.
Qed.

Lemma get_set_cases b x y v px py :
  get (set b x y v) px py = get b px py \/ get (set b x y v) px py = Some v.
Proof.
  unfold set. destruct (is_in_bounds b x y); [apply get_store_cases|by left].
Qed.

Lemma get_set_same b x y v :
  get (set b x y v) x y = None \/ get (set b x y v) x y = Some v.
Proof.
  unfold set. destruct (is_in_bounds b x y) eqn:Hb.
  - unfold get. change (is_in_bounds (with_rows b _) x y) with (is_in_bounds b x y).
    rewrite Hb, rows_with_rows. apply store_lookup_same.
  - unfold get. rewrite Hb. by left.
Qed.

Lemma set_dims b x y v :
  width (set b x y v) = width b /\ height (set b x y v) = height b /\
  num_mines (set b x y v) = num_mines b /\ mines (set b x y v) = mines b.
Proof. unfold set. destruct (is_in_bounds b x y); done. Qed.

Lemma foldl_set_MINE (l : list pos) b p :
  p ∈ l \/ get b p.1 p.2 = None \/ get b p.1 p.2 = Some MINE ->
  get (foldl (fun b' (m : pos) => set b' m.1 m.2 MINE) b l) p.1 p.2 = None \/
  get (foldl (fun b' (m : pos) => set b' m.1 m.2 MINE) b l) p.1 p.2 = Some MINE.
Proof.
  revert b. induction l as [|a l IH]; intros b Hp; simpl.
  - destruct Hp as [Hp|Hp]; [by apply elem_of_nil in Hp|done].
  - apply IH. rewrite elem_of_cons in Hp.
    destruct Hp as [[->|Hp]|Hp]; [|by left|].
    + right. apply get_set_same.
    + right. destruct (get_set_cases b a.1 a.2 MINE p.1 p.2) as [E|E]; rewrite E; auto.
Qed.

Lemma foldl_set_dims (l : list pos) b :
  let b' := foldl (fun b' (m : pos) => set b' m.1 m.2 MINE) b l in
  width b' = width b /\ height b' = height b /\ num_mines b' = num_mines b /\
  mines b' = mines b.
Proof.
  revert b. induction l as [|a l IH]; intros b; simpl; [done|].
  destruct (IH (set b a.1 a.2 MINE)) as (-> & -> & -> & ->).
  apply set_dims.
Qed.

Lemma reveal_mines_mines b : mines (reveal_mines b) = mines b.
Proof. apply foldl_set_dims. Qed.

Lemma reveal_mines_at_mine b p :
  p ∈ mines b -> get (reveal_mines b) p.1 p.2 = None \/
                 get (reveal_mines b) p.1 p.2 = Some MINE.
Proof.
  intros Hp. apply foldl_set_MINE. left. by apply elem_of_elements.
Qed.

Lemma get_reset b l x y v : get (reset b l) x y = Some v -> v = HIDDEN.
Proof.
  unfold get, reset. cbn [rows]. destruct (is_in_bounds _ x y); [|done].
  destruct (replicate _ _ !! Z.to_nat y) as [r|] eqn:E; simpl; [|done].
  apply lookup_replicate in E as [-> _].
  intros Hr. apply lookup_replicate in Hr. tauto.
Qed.

Lemma reveal_from_dims b x y :
  width (reveal_from b x y) = width b /\ height (reveal_from b x y) = height b /\
  num_mines (reveal_from b x y) = num_mines b /\ mines (reveal_from b x y) = mines b.
Proof.
  destruct (reveal_from_overwrite b x y) as (V & _ & Hr).
  pose proof (Hr (rows b)) as H. rewrite with_rows_rows in H. rewrite H. done.
Qed.

End CellFacts.

Module GameFacts.
Import BoardState Invariants BoardFacts CellFacts MineSweeper.


Lemma covered_store b x y v :
  v = HIDDEN \/ v = FLAG -> covered b -> covered (with_rows b (rows_store (rows b) x y v)).
Proof.
  intros Hv Hc p Hp w Hw.
  destruct (get_store_cases b x y v p.1 p.2) as [E|E]; rewrite E in Hw.
  - by apply (Hc p Hp).
  - injection Hw as <-. done.
Qed.

Lemma covered_set b x y v : v = HIDDEN \/ v = FLAG -> covered b -> covered (set b x y v).
Proof.
  intros Hv Hc. unfold set. destruct (is_in_bounds b x y); [|done].
  by apply covered_store.
Qed.

Lemma covered_reveal_from b x y :
  (x, y) ∉ mines b -> covered b -> covered (reveal_from b x y).
Proof.
  intros Hxy Hc p Hp v Hv.
  destruct (reveal_from_dims b x y) as (_ & _ & _ & Hm). rewrite Hm in Hp.
  rewrite reveal_from_keeps_mines in Hv by done. by apply (Hc p Hp).
Qed.

Lemma toggle_covered g c : covered (board g) -> covered (board (handle_toggle_flag g c)).
Proof.
  intros Hc. unfold handle_toggle_flag.
  destruct (has_bit (type c) CmdType.TOGGLE_FLAG); [|done]. simpl negb. cbv iota.
  destruct (cursor_pos g) as [x y].
  case_bool_decide.
  - assert (covered (set (board g) x y FLAG)) by (apply covered_set; auto).
    destruct (bool_decide (cmd_pos c ∈ mines (board g)));
      match goal with |- context [if ?a then _ else _] => destruct a end; done.
  - assert (covered (with_rows (board g) (rows_store (rows (board g)) x y HIDDEN)))
      by (apply covered_store; auto).
    destruct (bool_decide (cmd_pos c ∈ mines (board g))); done.
Qed.

Lemma toggle_state g c :
  state (handle_toggle_flag g c) = state g \/
  (state (handle_toggle_flag g c) = VICTORY /\
   get (board g) (cursor_pos g).1 (cursor_pos g).2 = Some HIDDEN).
Proof.
  unfold handle_toggle_flag.
  destruct (has_bit (type c) CmdType.TOGGLE_FLAG); [|by left]. simpl negb. cbv iota.
  destruct (cursor_pos g) as [x y]. simpl.
  case_bool_decide as Hh.
  - destruct (bool_decide (cmd_pos c ∈ mines (board g)));
      match goal with |- context [if ?a then _ else _] => destruct a end; auto.
  - destruct (bool_decide (cmd_pos c ∈ mines (board g))); auto.
Qed.

Lemma reveal_cases g c :
  covered (board g) ->
  (state (handle_reveal g c) = state g /\ covered (board (handle_reveal g c))) \/
  (state (handle_reveal g c) = DEFEAT /\ board (handle_reveal g c) = reveal_mines (board g) /\
   cursor_pos g ∈ mines (board g) /\ cursor_pos (handle_reveal g c) = cursor_pos g).
Proof.
  intros Hc. unfold handle_reveal.
  destruct (has_bit (type c) CmdType.REVEAL); simpl negb; cbv iota; [|by left].
  destruct (bool_decide (get (board g) (cx c) (cy c) = Some HIDDEN)); simpl negb; cbv iota;
    [|by left].
  case_bool_decide as Hm.
  - right. unfold end_game. simpl. done.
  - left. simpl. split; [done|]. apply covered_reveal_from; [|done].
    by destruct (cursor_pos g).
Qed.

Lemma update_inv g c : game_inv g -> game_inv (update g c).
Proof.
  unfold game_inv, update. intros Hg.
  destruct (is_starting (state g)) eqn:Hs.
  { simpl. intros _. apply Hg. destruct (state g); done. }
  destruct c as [c|]; [|done].
  destruct ((type c =? CmdType.NONE) || is_game_over (state g)) eqn:Ho; [done|].
  apply orb_false_iff in Ho as [_ Ho].
  assert (Hc : covered (board g)) by (apply Hg; intros E; rewrite E in Ho; done).
  set (g1 := handle_movement g c).
  assert (Hc1 : covered (board g1)) by done.
  intros Hd.
  destruct (reveal_cases g1 c Hc1) as [[Hs2 Hc2]|(Hs2 & Hb2 & Hm2 & Hp2)].
  - by apply toggle_covered.
  - exfalso. destruct (toggle_state (handle_reveal g1 c) c) as [E|[_ E]].
    + congruence.
    + rewrite Hb2, Hp2 in E.
      destruct (reveal_mines_at_mine (board g1) (cursor_pos g1) Hm2) as [E'|E'];
        rewrite E' in E; [discriminate|].
      injection E as E. vm_compute in E. discriminate.
Qed.

Lemma reset_inv g l : game_inv (MineSweeper.reset g l).
Proof.
  intros _ p _ v Hv. left. simpl in Hv. by eapply get_reset.
Qed.

Lemma new_inv w h d l1 l2 g : MineSweeper.new w h d l1 l2 = Some g -> game_inv g.
Proof.
  unfold MineSweeper.new.
  destruct (negb _); [done|].
  destruct (BoardState.new _ _ _ _); [|done].
  intros [= <-]. apply reset_inv.
Qed.

Lemma reachable_inv g : reachable g -> game_inv g.
Proof.
  induction 1.
  - by eapply new_inv.
  - by apply update_inv.
  - apply reset_inv.
Qed.

End GameFacts.

Module UpdateFacts.
Import BoardState MineSweeper.

Lemma get_some_in_bounds b x y v : get b x y = Some v -> is_in_bounds b x y = true.
Proof. unfold get. by destruct (is_in_bounds b x y). Qed.

Lemma clamp_in_bounds b x y : is_in_bounds b x y = true -> clamp_pos b (x, y) = (x, y).
Proof.
  unfold is_in_bounds, clamp_pos. rewrite !andb_true_iff, !Z.leb_le, !Z.ltb_lt. simpl.
  intros. f_equal; lia.
Qed.

Lemma toggle_cursor g c : cursor_pos (handle_toggle_flag g c) = cursor_pos g.
Proof.
  unfold handle_toggle_flag. destruct (has_bit _ _); [|done]. simpl negb; cbv iota.
  destruct (cursor_pos g) as [x y] eqn:E. case_bool_decide.
  - destruct (bool_decide _);
      match goal with |- context [if ?a then _ else _] => destruct a end; done.
  - destruct (bool_decide _); done.
Qed.

Lemma reveal_cursor g c : cursor_pos (handle_reveal g c) = cursor_pos g.
Proof.
  unfold handle_reveal, end_game.
  destruct (has_bit _ _); [|done]. simpl negb; cbv iota.
  destruct (bool_decide _); [|done]. simpl negb; cbv iota.
  destruct (bool_decide _); done.
Qed.

Lemma movement_pos g c :
  handle_movement g c = with_cursor g (clamp_pos (board g) (SpecSide.moved_pos c)).
Proof.
  unfold handle_movement, SpecSide.moved_pos. f_equal. f_equal.
  destruct (has_bit (type c) CmdType.LEFT), (has_bit (type c) CmdType.RIGHT),
           (has_bit (type c) CmdType.UP), (has_bit (type c) CmdType.DOWN);
    f_equal; lia.
Qed.

Lemma no_move_bits t bit :
  Z.land t CmdType.MOVE = 0 -> Z.land CmdType.MOVE bit = bit -> has_bit t bit = false.
Proof.
  intros H Hb. unfold has_bit. rewrite <- Hb, Z.land_assoc, H. done.
Qed.

End UpdateFacts.

Module CountFacts.
Import BoardState BoardFacts.

Lemma elem_of_neighbours8 b x y p :
  p ∈ SpecSide.neighbours8 b x y <->
  is_in_bounds b p.1 p.2 = true /\ p ∈ adjacent_pos x y /\ p <> (x, y).
Proof.
  destruct p as [px py]. unfold SpecSide.neighbours8.
  rewrite elem_of_list_to_set, list_elem_of_filter, elem_of_adjacent.
  rewrite !elem_of_cons, elem_of_nil, !pair_equal_spec. simpl.
  split.
  - intros [Hb Hp]. split; [done|]. split; [lia|]. intros [? ?]. lia.
  - intros (Hb & Hr & Hn). split; [done|].
    assert (Hx : px = x - 1 \/ px = x \/ px = x + 1) by lia.
    assert (Hy : py = y - 1 \/ py = y \/ py = y + 1) by lia.
    destruct Hx as [-> | [-> | ->]], Hy as [-> | [-> | ->]]; try tauto.
Qed.

Lemma count_adjacent_neighbours8 b x y :
  set_Forall (fun m : pos => is_in_bounds b m.1 m.2 = true) (mines b) ->
  count_adjacent_mines b x y =
  Z.of_nat (size (SpecSide.neighbours8 b x y ∩ mines b)) +
  (if bool_decide ((x, y) ∈ mines b) then 1 else 0).
Proof.
  intros Hm. unfold count_adjacent_mines.
  assert (Heq : adjacent_pos x y ∩ mines b =
                (SpecSide.neighbours8 b x y ∩ mines b) ∪ ({[(x, y)]} ∩ mines b)).
  { apply set_eq. intros q.
    rewrite elem_of_union, !elem_of_intersection, elem_of_neighbours8, elem_of_singleton.
    split.
    - intros [Ha Hq]. destruct (decide (q = (x, y))) as [->|Hn]; [right; done|].
      left. split; [|done]. split; [by apply Hm|done].
    - intros [[(_ & Ha & _) Hq] | [-> Hq]]; split; try done.
      apply elem_of_adjacent. simpl. lia. }
  rewrite Heq, size_union.
  2:{ intros q. rewrite !elem_of_intersection, elem_of_neighbours8, elem_of_singleton.
      intros [(_ & _ & Hn) _] [Hq _]. done. }
  case_bool_decide as Hxy.
  - replace ({[(x, y)]} ∩ mines b) with ({[(x, y)]} : gset pos) by set_solver.
    rewrite size_singleton. lia.
  - replace ({[(x, y)]} ∩ mines b) with (∅ : gset pos) by set_solver.
    rewrite size_empty. lia.
Qed.

End CountFacts.

Module ResetFacts.
Import BoardState BoardFacts Invariants.









End ResetFacts.

Module RiskFacts.
Import BoardState BoardFacts MineSweeper MineSweeperAI.

Lemma py_div_unit (s c : Q) :
  (0 <= s <= c)%Q -> (0 < c)%Q -> exists r, py_div s c = Some r /\ (0 <= r <= 1)%Q.
Proof.
  intros [Hs0 Hsc] Hc. unfold py_div.
  destruct (Qeq_bool c 0) eqn:E.
  - apply Qeq_bool_iff in E. rewrite E in Hc. discriminate.
  - eexists. split; [reflexivity|]. split.
    + apply Qle_shift_div_l; [done|]. by rewrite Qmult_0_l.
    + apply Qle_shift_div_r; [done|]. by rewrite Qmult_1_l.
Qed.

Lemma py_div_unit_Z (a c : Z) :
  0 <= a <= c -> 0 < c ->
  exists r, py_div (inject_Z a) (inject_Z c) = Some r /\ (0 <= r <= 1)%Q.
Proof.
  intros Ha Hc. apply py_div_unit.
  - change 0%Q with (inject_Z 0). rewrite <- !Zle_Qle. lia.
  - change 0%Q with (inject_Z 0). rewrite <- Zlt_Qlt. lia.
Qed.

Lemma mapM_unit (f : pos -> option Q) (l : list pos) :
  (forall p, p ∈ l -> exists q, f p = Some q /\ (0 <= q <= 1)%Q) ->
  exists qs, mapM f l = Some qs /\ length qs = length l /\
             Forall (fun q => 0 <= q <= 1)%Q qs.
Proof.
  induction l as [|p l IH]; intros Hf.
  - exists []. done.
  - destruct (Hf p ltac:(left)) as (q & Hq & Hq01).
    destruct IH as (qs & Hqs & Hlen & Hall).
    { intros p' Hp'. apply Hf. by right. }
    exists (q :: qs). simpl. rewrite Hq, Hqs. simpl. split; [done|].
    split; [by rewrite Hlen|]. by constructor.
Qed.

Lemma Qsum_unit (qs : list Q) :
  Forall (fun q => 0 <= q <= 1)%Q qs ->
  (0 <= Qsum qs <= inject_Z (Z.of_nat (length qs)))%Q.
Proof.
  induction 1 as [|q qs [Hq0 Hq1] Hqs IH]; simpl.
  - split; apply Qle_refl.
  - destruct IH as [H0 H1]. rewrite Nat2Z.inj_succ, <- Z.add_1_l, inject_Z_plus.
    split.
    + change 0%Q with (0 + 0)%Q. by apply Qplus_le_compat.
    + by apply Qplus_le_compat.
Qed.

Lemma count_neighbours_pos b x y st p :
  p ∈ adjacent_pos x y -> get b p.1 p.2 = Some st -> 0 < count_neighbours_state b x y st.
Proof.
  intros Hp Hg. unfold count_neighbours_state.
  assert (Hin : p ∈ filter (fun p : pos => bool_decide (get b p.1 p.2 = Some st))
                           (elements (adjacent_pos x y))).
  { apply list_elem_of_filter. split; [by rewrite bool_decide_eq_true_2|].
    by apply elem_of_elements. }
  destruct (filter _ _) as [|q l]; [by apply elem_of_nil in Hin|]. simpl. lia.
Qed.

Lemma count_neighbours_nonneg b x y st : 0 <= count_neighbours_state b x y st.
Proof. unfold count_neighbours_state. lia. Qed.

Lemma prob_mine_unit b gp x y n :
  (0 <= gp <= 1)%Q -> get b x y = Some HIDDEN -> n ∈ adjacent_pos x y ->
  (forall st, get b n.1 n.2 = Some st -> st <= 8 ->
     count_neighbours_state b n.1 n.2 FLAG <= st /\
     st - count_neighbours_state b n.1 n.2 FLAG < count_neighbours_state b n.1 n.2 HIDDEN) ->
  exists q, prob_mine b gp n.1 n.2 = Some q /\ (0 <= q <= 1)%Q.
Proof.
  intros [Hg0 Hg1] Hh Hn Hc. unfold prob_mine.
  destruct (get b n.1 n.2) as [v|] eqn:Hv.
  - destruct (8 <? v) eqn:E8.
    + exists gp. done.
    + apply Z.ltb_ge in E8. destruct (Hc v eq_refl E8) as [Hf Hlt].
      pose proof (count_neighbours_nonneg b n.1 n.2 FLAG).
      apply py_div_unit_Z; lia.
  - exists (gp / 2)%Q. split; [done|]. split.
    + apply Qle_shift_div_l; [done|]. by rewrite Qmult_0_l.
    + apply Qle_shift_div_r; [done|].
      apply Qle_trans with 1%Q; [done|]. discriminate.
Qed.

Lemma not_definite_mine b x y n st :
  is_definite_mine b x y = false -> n ∈ adjacent_pos x y -> get b n.1 n.2 = Some st ->
  st <= 8 ->
  st - count_neighbours_state b n.1 n.2 FLAG < count_neighbours_state b n.1 n.2 HIDDEN.
Proof.
  intros Hdm Hn Hst H8.
  destruct (Z.lt_ge_cases (st - count_neighbours_state b n.1 n.2 FLAG)
                          (count_neighbours_state b n.1 n.2 HIDDEN)) as [Hlt|Hge]; [done|].
  exfalso. assert (Ht : is_definite_mine b x y = true).
  { unfold is_definite_mine. apply existsb_exists. exists n.
    split; [by apply list_elem_of_In, elem_of_elements|].
    rewrite Hst. apply andb_true_iff. split; by apply Z.leb_le. }
  congruence.
Qed.

End RiskFacts.

(** * Shape and cell-value invariants *)

Module ShapeFacts.
Import BoardState BoardFacts CellFacts Invariants MineSweeper.

Lemma rect_store b x y v : rect b -> rect (with_rows b (rows_store (rows b) x y v)).
Proof.
  intros [Hl Hf]. unfold rect, rows_store. cbn [with_rows rows width height]. split.
  - by rewrite length_alter.
  - apply Forall_alter; [done|]. intros r _ Hr. by rewrite length_insert.
Qed.

Lemma rect_set b x y v : rect b -> rect (set b x y v).
Proof. unfold set. destruct (is_in_bounds b x y); [apply rect_store|done]. Qed.

Lemma rect_overwrite b V : rect b -> rect (with_rows b (overwrite b V (rows b))).
Proof.
  intros [Hl Hf]. unfold rect, overwrite. cbn [with_rows rows width height]. split.
  - by rewrite length_imap.
  - apply Forall_lookup. intros i r Hr. rewrite list_lookup_imap in Hr.
    destruct (rows b !! i) as [r0|] eqn:E; simpl in Hr; [|discriminate].
    injection Hr as <-. rewrite length_imap. exact (Forall_lookup_1 _ _ _ _ Hf E).
Qed.

Lemma reveal_from_rows b x y :
  exists V, (no_mine b ∅ [(x, y)] -> forall p, p ∈ V -> p ∉ mines b) /\
            reveal_from b x y = with_rows b (overwrite b V (rows b)).
Proof.
  destruct (reveal_from_overwrite b x y) as (V & HV & Hr).
  exists V. split; [done|]. rewrite <- Hr, with_rows_rows. done.
Qed.

Lemma rect_reveal_from b x y : rect b -> rect (reveal_from b x y).
Proof.
  intros Hb. destruct (reveal_from_rows b x y) as (V & _ & ->). by apply rect_overwrite.
Qed.

Lemma rect_reveal_mines b : rect b -> rect (reveal_mines b).
Proof.
  unfold reveal_mines. generalize (elements (mines b)) as l. intros l. revert b.
  induction l as [|m l IH]; intros b Hb; simpl; [done|]. apply IH, rect_set, Hb.
Qed.

Lemma rect_reset b l : rect (BoardState.reset b l).
Proof.
  unfold rect, BoardState.reset. cbn [rows width height]. split.
  - by rewrite length_replicate.
  - apply Forall_replicate. by rewrite length_replicate.
Qed.

Lemma in_bounds_dims b b' x y :
  width b' = width b -> height b' = height b -> is_in_bounds b' x y = is_in_bounds b x y.
Proof. intros Hw Hh. unfold is_in_bounds. by rewrite Hw, Hh. Qed.

Lemma get_overwrite b V r x y :
  get (with_rows b (overwrite b V r)) x y =
  (fun c => if bool_decide ((x, y) ∈ V) then count_adjacent_mines b x y else c)
    <$> get (with_rows b r) x y.
Proof.
  unfold get. rewrite !(in_bounds_dims b (with_rows b _)) by done.
  destruct (is_in_bounds b x y) eqn:Hb; [|done].
  unfold is_in_bounds in Hb. rewrite !andb_true_iff, !Z.leb_le in Hb.
  cbn [rows with_rows]. rewrite lookup_overwrite, !Z2Nat.id by lia. done.
Qed.

Lemma count_le_8 b x y : (x, y) ∉ mines b -> count_adjacent_mines b x y <= 8.
Proof.
  intros Hm. unfold count_adjacent_mines.
  assert (Hs : adjacent_pos x y ∩ mines b ⊆ adjacent_pos x y ∖ {[(x, y)]}) by set_solver.
  apply subseteq_size in Hs.
  assert (Hu : size (adjacent_pos x y) =
               size ({[(x, y)]} ∪ adjacent_pos x y ∖ {[(x, y)]} : gset pos)).
  { f_equal. apply set_eq. intros q. rewrite elem_of_union, elem_of_difference,
      elem_of_singleton. split; [|intros [->|[Hq _]]; [apply elem_of_adjacent; simpl; lia|done]].
    intros Hq. destruct (decide (q = (x, y))); [left|right]; done. }
  rewrite size_union, size_singleton in Hu by set_solver.
  pose proof (size_adjacent_le x y). lia.
Qed.

Lemma valid_store b x y v :
  valid_cell v -> cells_valid b -> cells_valid (with_rows b (rows_store (rows b) x y v)).
Proof.
  intros Hv Hc px py w Hg.
  destruct (get_store_cases b x y v px py) as [E|E]; rewrite E in Hg.
  - by apply (Hc px py).
  - by injection Hg as <-.
Qed.

Lemma valid_set b x y v : valid_cell v -> cells_valid b -> cells_valid (set b x y v).
Proof.
  intros Hv Hc px py w Hg.
  destruct (get_set_cases b x y v px py) as [E|E]; rewrite E in Hg.
  - by apply (Hc px py).
  - by injection Hg as <-.
Qed.

Lemma no_mine_start b x y : (x, y) ∉ mines b -> no_mine b ∅ [(x, y)].
Proof.
  intros Hm p [Hp|Hp]; [set_solver|]. apply list_elem_of_singleton in Hp. by subst.
Qed.

Lemma valid_reveal_from b x y :
  (x, y) ∉ mines b -> cells_valid b -> cells_valid (reveal_from b x y).
Proof.
  intros Hm Hc. destruct (reveal_from_rows b x y) as (V & HV & ->).
  intros px py v Hg. rewrite get_overwrite, with_rows_rows in Hg.
  destruct (get b px py) as [w|] eqn:E; simpl in Hg; [|discriminate].
  injection Hg as <-. case_bool_decide as Hin.
  - left. split; [apply count_nonneg|]. apply count_le_8.
    exact (HV (no_mine_start b x y Hm) _ Hin).
  - by apply (Hc px py).
Qed.

Lemma valid_reveal_mines b : cells_valid b -> cells_valid (reveal_mines b).
Proof.
  unfold reveal_mines. generalize (elements (mines b)) as l. intros l. revert b.
  induction l as [|m l IH]; intros b Hb; simpl; [done|].
  apply IH, valid_set, Hb. unfold valid_cell. auto.
Qed.

Lemma valid_reset b l : cells_valid (BoardState.reset b l).
Proof. intros x y v Hg. apply get_reset in Hg. subst. unfold valid_cell. auto. Qed.

Lemma reveal_mines_dims b :
  width (reveal_mines b) = width b /\ height (reveal_mines b) = height b /\
  num_mines (reveal_mines b) = num_mines b /\ mines (reveal_mines b) = mines b.
Proof. apply foldl_set_dims. Qed.

Lemma clamp_in_bounds_any b p :
  1 <= width b -> 1 <= height b ->
  is_in_bounds b (clamp_pos b p).1 (clamp_pos b p).2 = true.
Proof.
  intros Hw Hh. unfold is_in_bounds, clamp_pos. simpl.
  rewrite !andb_true_iff, !Z.leb_le, !Z.ltb_lt. lia.
Qed.

Lemma board_wf_store b x y v :
  valid_cell v -> board_wf b -> board_wf (with_rows b (rows_store (rows b) x y v)).
Proof.
  intros Hv (Hw & Hh & Hr & Hc). split; [done|]. split; [done|]. split.
  - by apply rect_store.
  - by apply valid_store.
Qed.

Lemma board_wf_set b x y v : valid_cell v -> board_wf b -> board_wf (set b x y v).
Proof.
  intros Hv (Hw & Hh & Hr & Hc). destruct (set_dims b x y v) as (Ew & Eh & _).
  split; [lia|]. split; [lia|]. split.
  - by apply rect_set.
  - by apply valid_set.
Qed.

Lemma board_wf_reveal_from b x y :
  (x, y) ∉ mines b -> board_wf b -> board_wf (reveal_from b x y).
Proof.
  intros Hm (Hw & Hh & Hr & Hc). destruct (reveal_from_dims b x y) as (Ew & Eh & _).
  split; [lia|]. split; [lia|]. split.
  - by apply rect_reveal_from.
  - by apply valid_reveal_from.
Qed.

Lemma board_wf_reveal_mines b : board_wf b -> board_wf (reveal_mines b).
Proof.
  intros (Hw & Hh & Hr & Hc). destruct (reveal_mines_dims b) as (Ew & Eh & _).
  split; [lia|]. split; [lia|]. split.
  - by apply rect_reveal_mines.
  - by apply valid_reveal_mines.
Qed.

Lemma movement_wf g c : game_wf g -> game_wf (handle_movement g c).
Proof.
  intros [(Hw & Hh & Hr) Hc]. rewrite UpdateFacts.movement_pos.
  split; [done|]. cbn [with_cursor board cursor_pos]. apply clamp_in_bounds_any; lia.
Qed.

Lemma reveal_wf g c : game_wf g -> game_wf (handle_reveal g c).
Proof.
  intros [Hb Hc]. unfold handle_reveal.
  destruct (negb (has_bit _ _)); [by split|].
  destruct (negb (bool_decide _)); [by split|].
  case_bool_decide as Hm.
  - unfold end_game. split; cbn [board cursor_pos].
    + by apply board_wf_reveal_mines.
    + destruct (reveal_mines_dims (board g)) as (Ew & Eh & _).
      by rewrite (in_bounds_dims (board g)).
  - split; cbn [board cursor_pos with_board].
    + apply board_wf_reveal_from; [by destruct (cursor_pos g)|done].
    + destruct (reveal_from_dims (board g) (cursor_pos g).1 (cursor_pos g).2) as (Ew & Eh & _).
      by rewrite (in_bounds_dims (board g)).
Qed.

Lemma toggle_wf g c : game_wf g -> game_wf (handle_toggle_flag g c).
Proof.
  intros [Hb Hc]. unfold handle_toggle_flag.
  destruct (negb (has_bit _ _)); [by split|].
  destruct (cursor_pos g) as [x y] eqn:Ep. simpl in Hc.
  case_bool_decide as Hh.
  - assert (Hwf : game_wf (G (set (board g) x y FLAG) (state g) (x, y)
                             (num_flags g + 1) (num_mines_flagged g))).
    { split; cbn [board cursor_pos].
      - apply board_wf_set; [unfold valid_cell; auto|done].
      - destruct (set_dims (board g) x y FLAG) as (Ew & Eh & _).
        simpl. by rewrite (in_bounds_dims (board g)). }
    destruct (bool_decide (cmd_pos c ∈ _)); destruct (all_mines_found _); exact Hwf.
  - assert (Hwf : game_wf (G (with_rows (board g) (rows_store (rows (board g)) x y HIDDEN))
                             (state g) (x, y) (num_flags g - 1) (num_mines_flagged g))).
    { split; cbn [board cursor_pos].
      - apply board_wf_store; [unfold valid_cell; auto|done].
      - simpl. by rewrite (in_bounds_dims (board g)). }
    destruct (bool_decide (cmd_pos c ∈ _)); exact Hwf.
Qed.

Lemma update_wf g c : game_wf g -> game_wf (update g c).
Proof.
  intros Hg. unfold update. destruct (is_starting (state g)); [done|].
  destruct c as [c|]; [|done].
  destruct (_ || _); [done|].
  by apply toggle_wf, reveal_wf, movement_wf.
Qed.

Lemma reset_wf g l :
  1 < width (board g) -> 1 < height (board g) -> game_wf (MineSweeper.reset g l).
Proof.
  intros Hw Hh. split; cbn [MineSweeper.reset board cursor_pos].
  - split; [done|]. split; [done|]. split; [apply rect_reset|apply valid_reset].
  - unfold is_in_bounds. cbn [MineSweeper.reset BoardState.reset board cursor_pos width height fst snd].
    rewrite !andb_true_iff, !Z.leb_le, !Z.ltb_lt. lia.
Qed.

Lemma new_wf w h d l1 l2 g : MineSweeper.new w h d l1 l2 = Some g -> game_wf g.
Proof.
  unfold MineSweeper.new. destruct (negb _); [done|].
  destruct (BoardState.new h w _ l1) as [b|] eqn:E; [|done]. intros [= <-].
  unfold BoardState.new in E.
  destruct (negb _); [done|].
  destruct (w <=? 1) eqn:Ew; [done|]. destruct (h <=? 1) eqn:Eh; [done|].
  destruct (negb _); [done|]. injection E as <-.
  apply reset_wf; simpl; lia.
Qed.

Lemma reachable_wf g : reachable g -> game_wf g.
Proof.
  induction 1 as [w h d l1 l2 g Hn|g c _ IH|g l _ IH].
  - by eapply new_wf.
  - by apply update_wf.
  - destruct IH as [(Hw & Hh & _) _]. by apply reset_wf.
Qed.

End ShapeFacts.

(** * Facts about the flood-fill, iteration, the AI step, keys and display *)

Module FloodFacts.
Import BoardState BoardFacts CellFacts Invariants ShapeFacts ExtraDefs.

Lemma fill_flood_inv b st V p rest :
  flood_inv b st V (p :: rest) ->
  flood_inv b st (visited (fill (RS V rest b) p.1 p.2)) (to_visit (fill (RS V rest b) p.1 p.2)).
Proof.
  destruct p as [x y]. intros (Hin & Hsrc & Hcl). unfold fill. cbn [board visited to_visit fst snd].
  destruct (negb (is_in_bounds b x y) || bool_decide ((x, y) ∈ V)) eqn:Hc.
  - cbn [visited to_visit]. split; [done|]. split.
    + intros q Hq. apply Hsrc. rewrite elem_of_cons. tauto.
    + intros q Hq Hb. destruct (Hcl q Hq Hb) as [H|H]; [by left|].
      apply elem_of_cons in H as [->|H]; [|by right]. left.
      apply orb_true_iff in Hc as [Hc|Hc].
      * simpl in Hb. rewrite Hb in Hc. discriminate.
      * by apply bool_decide_eq_true in Hc.
  - apply orb_false_iff in Hc as [Hb Hv]. apply negb_false_iff in Hb.
    apply bool_decide_eq_false in Hv.
    assert (Hin' : {[(x, y)]} ∪ V ⊆ inb b).
    { intros q Hq. apply elem_of_union in Hq as [Hq|Hq]; [|by apply Hin].
      apply elem_of_singleton in Hq as ->. by apply elem_of_inb. }
    destruct (0 <? count_adjacent_mines b x y) eqn:Hn; cbn [visited to_visit].
    + split; [done|]. split.
      * intros q Hq. destruct (Hsrc q) as [H|(p' & Hp' & H0 & Ha)].
        { rewrite elem_of_cons, elem_of_union, elem_of_singleton in *. tauto. }
        { by left. }
        { right. exists p'. split; [set_solver|done]. }
      * intros q Hq Hbq.
        assert (Hq' : q = st \/ exists p, p ∈ V /\ count_adjacent_mines b p.1 p.2 = 0 /\
                                            q ∈ adjacent_pos p.1 p.2).
        { destruct Hq as [Hq|(p' & Hp' & H0 & Ha)]; [by left|right].
          apply elem_of_union in Hp' as [Hp'|Hp'].
          - apply elem_of_singleton in Hp' as ->. apply Z.ltb_lt in Hn. simpl in H0. lia.
          - eauto. }
        destruct (Hcl q Hq' Hbq) as [H|H]; [left; set_solver|].
        apply elem_of_cons in H as [->|H]; [left; set_solver|by right].
    + assert (H0 : count_adjacent_mines b x y = 0).
      { apply Z.ltb_ge in Hn. pose proof (count_nonneg b x y). lia. }
      split; [done|]. split.
      * intros q Hq. rewrite elem_of_push, elem_of_elements in Hq.
        destruct Hq as [Hq|[Hq|Hq]].
        { destruct (Hsrc q) as [H|(p' & Hp' & H0' & Ha)];
            [rewrite elem_of_cons, elem_of_union, elem_of_singleton in *; tauto|by left|].
          right. exists p'. split; [set_solver|done]. }
        { right. exists (x, y). split; [set_solver|done]. }
        { destruct (Hsrc q) as [H|(p' & Hp' & H0' & Ha)]; [rewrite elem_of_cons; tauto|by left|].
          right. exists p'. split; [set_solver|done]. }
      * intros q Hq Hbq. rewrite elem_of_push, elem_of_elements.
        destruct Hq as [Hq|(p' & Hp' & H0' & Ha)].
        { destruct (Hcl q (or_introl Hq) Hbq) as [H|H]; [left; set_solver|].
          apply elem_of_cons in H as [->|H]; [left; set_solver|tauto]. }
        apply elem_of_union in Hp' as [Hp'|Hp'].
        { apply elem_of_singleton in Hp' as ->. tauto. }
        destruct (Hcl q (or_intror (ex_intro _ p' (conj Hp' (conj H0' Ha)))) Hbq) as [H|H];
          [left; set_solver|].
        apply elem_of_cons in H as [->|H]; [left; set_solver|tauto].
Qed.

Lemma loop_flood n b st V S r s' :
  flood_inv b st V S ->
  reveal_loop n (RS V S (with_rows b (overwrite b V r))) = Some s' ->
  exists V', s' = RS V' [] (with_rows b (overwrite b V' r)) /\ flood_inv b st V' [].
Proof.
  revert V S. induction n as [|n IH]; intros V S Hi Hl; [discriminate|].
  destruct S as [|p rest]; cbn [reveal_loop to_visit] in Hl.
  - injection Hl as <-. eauto.
  - cbn [visited board] in Hl. rewrite fill_overwrite in Hl.
    exact (IH _ _ (fill_flood_inv b st V p rest Hi) Hl).
Qed.

Lemma reveal_from_flood b x y :
  exists V,
    reveal_from b x y = with_rows b (overwrite b V (rows b)) /\
    ((x, y) ∉ mines b -> forall p, p ∈ V -> p ∉ mines b) /\
    flood_inv b (x, y) V [].
Proof.
  destruct (reveal_loop_total (reveal_fuel b) (reveal_start b x y)
              (reveal_start_measure b x y)) as (s' & Hs' & _).
  assert (Hi : flood_inv b (x, y) ∅ [(x, y)]).
  { split; [set_solver|]. split.
    - intros q [Hq|Hq]; [set_solver|]. left. by apply list_elem_of_singleton in Hq.
    - intros q [->|(p & Hp & _)] _; [right; by left|set_solver]. }
  pose proof Hs' as Hs2. unfold reveal_start in Hs2.
  replace (RS ∅ [(x, y)] b) with (RS ∅ [(x, y)] (with_rows b (overwrite b ∅ (rows b)))) in Hs2
    by (rewrite overwrite_empty, with_rows_rows; done).
  destruct (loop_flood _ b (x, y) ∅ [(x, y)] (rows b) s' Hi Hs2) as (V & -> & HV).
  exists V. split; [|split; [|done]].
  - unfold reveal_from. rewrite Hs'. done.
  - intros Hm p Hp. destruct HV as (_ & Hsrc & _).
    destruct (Hsrc p (or_introl Hp)) as [->|(p' & _ & H0 & Ha)]; [done|].
    intros Hpm. unfold count_adjacent_mines in H0.
    assert (Hs : size (adjacent_pos p'.1 p'.2 ∩ mines b) = 0%nat) by lia.
    assert (Hp2 : p ∈ adjacent_pos p'.1 p'.2 ∩ mines b) by (apply elem_of_intersection; done).
    apply size_empty_inv in Hs. apply Hs in Hp2. by apply elem_of_empty in Hp2.
Qed.

End FloodFacts.

Module IterFacts.
Import BoardState Invariants BoardIter.

Lemma elem_of_iter_index b (i j : nat) :
  rect b -> (i, j) ∈ iter_index b <-> (Z.of_nat i < height b /\ Z.of_nat j < width b).
Proof.
  intros [Hl Hf]. unfold iter_index.
  destruct (rows b) as [|r0 rs] eqn:E.
  - simpl in Hl. rewrite elem_of_nil. lia.
  - rewrite <- list_cprod_list_prod, list_elem_of_cprod, !elem_of_seq. simpl fst; simpl snd.
    apply Forall_cons in Hf as [H0 _]. rewrite H0. simpl length in *. lia.
Qed.

Lemma cell_at_get b (i j : nat) x y v :
  rect b -> (i, j) ∈ iter_index b ->
  (cell_at b (i, j) = Some (x, y, v) <-> x = Z.of_nat j /\ y = Z.of_nat i /\ get b x y = Some v).
Proof.
  intros Hr Hin. pose proof Hin as Hb. apply elem_of_iter_index in Hb as [Hi Hj]; [|done].
  unfold cell_at, get, is_in_bounds. cbn [fst snd].
  split.
  - destruct (rows b !! i ≫= _) as [w|] eqn:E; simpl; [|discriminate].
    intros [= <- <- <-]. split; [done|]. split; [done|].
    rewrite !Nat2Z.id. replace (_ && _ && _ && _) with true by (symmetry; rewrite !andb_true_iff,
      !Z.leb_le, !Z.ltb_lt; lia). done.
  - intros (-> & -> & Hg). rewrite !Nat2Z.id in Hg.
    replace (_ && _ && _ && _) with true in Hg by (symmetry; rewrite !andb_true_iff,
      !Z.leb_le, !Z.ltb_lt; lia). rewrite Hg. done.
Qed.

Lemma cell_at_some b ij :
  rect b -> ij ∈ iter_index b -> exists x y v, cell_at b ij = Some (x, y, v).
Proof.
  intros Hr Hin. destruct ij as [i j]. pose proof Hin as Hb.
  apply elem_of_iter_index in Hb as [Hi Hj]; [|done]. destruct Hr as [Hl Hf].
  unfold cell_at. cbn [fst snd].
  destruct (rows b !! i) as [r|] eqn:E.
  - pose proof (Forall_lookup_1 _ _ _ _ Hf E) as Hr.
    destruct (r !! j) as [v|] eqn:Ev.
    + exists (Z.of_nat j), (Z.of_nat i), v. simpl. rewrite Ev. done.
    + apply lookup_ge_None in Ev. rewrite Hr in Ev. lia.
  - apply lookup_ge_None in E. rewrite Hl in E. lia.
Qed.

(** The cells of [iter_index] are exactly the in-bounds cells. *)
Lemma iter_cells b x y v :
  rect b ->
  ((exists ij, ij ∈ iter_index b /\ cell_at b ij = Some (x, y, v)) <-> get b x y = Some v).
Proof.
  intros Hr. split.
  - intros ([i j] & Hin & Hc). by apply (cell_at_get b i j x y v Hr Hin) in Hc as (_ & _ & ?).
  - intros Hg. pose proof Hg as Hb. apply UpdateFacts.get_some_in_bounds in Hb.
    unfold is_in_bounds in Hb. rewrite !andb_true_iff, !Z.leb_le, !Z.ltb_lt in Hb.
    assert (Hin : (Z.to_nat y, Z.to_nat x) ∈ iter_index b)
      by (apply elem_of_iter_index; [done|lia]).
    exists (Z.to_nat y, Z.to_nat x). split; [done|].
    apply (cell_at_get b _ _ x y v Hr Hin). rewrite !Z2Nat.id by lia. done.
Qed.

Lemma board_iter_cells b :
  rect b -> exists cells, board_iter b = Some cells /\
    forall x y v, (x, y, v) ∈ cells <-> get b x y = Some v.
Proof.
  intros Hr. unfold board_iter.
  destruct (mapM_is_Some_2 (cell_at b) (iter_index b)) as [cells Hc].
  { apply Forall_forall. intros ij Hin. destruct (cell_at_some b ij Hr) as (x & y & v & E).
    - done.
    - unfold compose. rewrite E. eauto. }
  exists cells. split; [done|]. intros x y v. rewrite <- iter_cells by done.
  apply mapM_Some_1 in Hc. split.
  - intros Hin. apply list_elem_of_lookup in Hin as [k Hk].
    destruct (Forall2_lookup_r _ _ _ _ _ Hc Hk) as (ij & Hij & E).
    exists ij. split; [by eapply list_elem_of_lookup_2|done].
  - intros (ij & Hin & E). apply list_elem_of_lookup in Hin as [k Hk].
    destruct (Forall2_lookup_l _ _ _ _ _ Hc Hk) as (c & Hck & E').
    rewrite E in E'. injection E' as <-. by eapply list_elem_of_lookup_2.
Qed.

Lemma all_cells_eq_spec b other l :
  (forall ij, ij ∈ l -> exists x y v, cell_at b ij = Some (x, y, v)) ->
  exists r, all_cells_eq b other l = Some r /\
    (r = true <-> forall ij x y v, ij ∈ l -> cell_at b ij = Some (x, y, v) ->
                                 get other x y = Some v).
Proof.
  induction l as [|ij l IH]; intros Hs; simpl.
  - exists true. split; [done|]. split; [|done]. intros _ ij x y v Hin. by apply elem_of_nil in Hin.
  - destruct (Hs ij (proj2 (elem_of_cons _ _ _) (or_introl eq_refl))) as (x & y & v & Ec). rewrite Ec.
    case_bool_decide as Hg.
    + destruct IH as (r & Hr & Hiff).
      { intros ij' Hin. apply Hs. apply elem_of_cons; by right. }
      exists r. split; [done|]. rewrite Hiff. split.
      * intros H ij' x' y' v' Hin Hc. apply elem_of_cons in Hin as [->|Hin].
        -- rewrite Ec in Hc. by injection Hc as <- <- <-.
        -- eauto.
      * intros H ij' x' y' v' Hin Hc. apply (H ij'); [apply elem_of_cons; by right|done].
    + exists false. split; [done|]. split; [done|]. intros H.
      exfalso. apply Hg, (H ij); [apply elem_of_cons; by left|done].
Qed.

End IterFacts.

Module AIFacts.
Import BoardState MineSweeper MineSweeperAI BoardIter AIDecision Invariants IterFacts ExtraDefs.

Lemma moves_mapM g cells : moves g cells = mapM (risk_of g) cells.
Proof.
  induction cells as [|[x y] cs IH]; simpl; [done|].
  unfold risk_of. simpl. destruct (calc_risk g x y); simpl; [|done].
  rewrite IH. done.
Qed.

Lemma insert_by_risk_perm r l : insert_by_risk r l ≡ₚ r :: l.
Proof.
  induction l as [|r' l IH]; simpl; [done|].
  destruct (Qle_bool _ _); [|done]. rewrite IH. apply Permutation_swap.
Qed.

Lemma sort_by_risk_perm l : sort_by_risk l ≡ₚ l.
Proof.
  unfold sort_by_risk. rewrite <- (app_nil_l l) at 2. generalize (@nil CellRisk) as acc.
  induction l as [|r l IH]; intros acc; simpl; [by rewrite app_nil_r|].
  rewrite IH, insert_by_risk_perm. simpl. by rewrite Permutation_middle.
Qed.

Lemma insert_by_risk_sorted r l :
  StronglySorted risk_le l -> StronglySorted risk_le (insert_by_risk r l).
Proof.
  induction l as [|r' l IH]; intros Hs; simpl.
  - repeat constructor.
  - apply StronglySorted_inv in Hs as [Hs Hf].
    destruct (Qle_bool (risk r') (risk r)) eqn:E.
    + constructor; [by apply IH|]. apply Forall_forall. intros q Hq.
      pose proof (insert_by_risk_perm r l) as Hp. rewrite Hp in Hq.
      apply elem_of_cons in Hq as [->|Hq].
      * unfold risk_le. by apply Qle_bool_iff.
      * rewrite Forall_forall in Hf. by apply Hf.
    + assert (Hlt : (risk r < risk r')%Q).
      { apply Qnot_le_lt. intros H. apply Qle_bool_iff in H. congruence. }
      constructor; [by constructor|]. constructor.
      * unfold risk_le. by apply Qlt_le_weak.
      * apply Forall_forall. intros q Hq. rewrite Forall_forall in Hf.
        unfold risk_le. apply Qle_trans with (risk r'); [by apply Qlt_le_weak|by apply Hf].
Qed.

Lemma sort_by_risk_sorted l : StronglySorted risk_le (sort_by_risk l).
Proof.
  unfold sort_by_risk. assert (H : StronglySorted risk_le []) by constructor. revert H.
  generalize (@nil CellRisk) as acc. induction l as [|r l IH]; intros acc Hs; simpl; [done|].
  by apply IH, insert_by_risk_sorted.
Qed.

Lemma sorted_head_le a l q : StronglySorted risk_le (a :: l) -> q ∈ a :: l -> risk_le a q.
Proof.
  intros Hs Hq. apply StronglySorted_inv in Hs as [_ Hf].
  apply elem_of_cons in Hq as [->|Hq]; [apply Qle_refl|].
  rewrite Forall_forall in Hf. by apply Hf.
Qed.

Lemma sorted_last_ge l a q : StronglySorted risk_le l -> last l = Some a -> q ∈ l -> risk_le q a.
Proof.
  intros Hs Hl Hq. apply last_Some in Hl as [l' ->].
  apply elem_of_app in Hq as [Hq|Hq].
  - induction l' as [|b l' IH]; [by apply elem_of_nil in Hq|].
    simpl in Hs. apply StronglySorted_inv in Hs as [Hs Hf].
    apply elem_of_cons in Hq as [->|Hq].
    + rewrite Forall_forall in Hf. apply Hf. apply elem_of_app. right. by left.
    + by apply IH.
  - apply list_elem_of_singleton in Hq as ->. apply Qle_refl.
Qed.

(** The hidden cells that [next] collects, for a rectangular board. *)
Lemma hidden_cells_spec b cells :
  (forall x y v, (x, y, v) ∈ cells <-> get b x y = Some v) ->
  forall p, p ∈ map (fun c : Z * Z * Z => (c.1.1, c.1.2))
                     (filter (fun c : Z * Z * Z => c.2 = HIDDEN) cells) <->
            get b p.1 p.2 = Some HIDDEN.
Proof.
  intros Hc [x y]. rewrite list_elem_of_In, in_map_iff. split.
  - intros ([[x' y'] v] & [= <- <-] & Hin). apply list_elem_of_In, list_elem_of_filter in Hin
      as [Hv Hin]. simpl in Hv. subst. by apply Hc.
  - intros Hg. exists (x, y, HIDDEN). split; [done|]. apply list_elem_of_In,
      list_elem_of_filter. split; [done|]. by apply Hc.
Qed.

Lemma risk_of_Some g p r : risk_of g p = Some r ->
  calc_risk g p.1 p.2 = Some (risk r) /\ rx r = p.1 /\ ry r = p.2.
Proof.
  unfold risk_of. destruct (calc_risk g p.1 p.2); simpl; [|discriminate]. by intros [= <-].
Qed.

Lemma next_spec n g c :
  rect (board g) -> next n g = AICommand c ->
  (is_game_over (state g) = true /\ c = Cmd CmdType.NONE 0 0) \/
  (is_game_over (state g) = false /\ get (board g) (cx c) (cy c) = Some HIDDEN /\
   exists r, calc_risk g (cx c) (cy c) = Some r /\
   ((type c = CmdType.TOGGLE_FLAG /\ (1 <= r)%Q /\
     forall x y r', get (board g) x y = Some HIDDEN -> calc_risk g x y = Some r' -> (r' <= r)%Q) \/
    (type c = CmdType.REVEAL /\ (r < 1)%Q /\
     forall x y r', get (board g) x y = Some HIDDEN -> calc_risk g x y = Some r' -> (r <= r')%Q))).
Proof.
  intros Hr. unfold next. destruct (is_game_over (state g)) eqn:Eo.
  - destruct (NUM_GAMES <=? n); [discriminate|]. intros [= <-]. by left.
  - destruct (board_iter_cells (board g) Hr) as (cells & -> & Hc).
    pose proof (hidden_cells_spec _ _ Hc) as Hh.
    set (hidden := map _ (filter _ cells)) in *.
    rewrite moves_mapM. destruct (mapM (risk_of g) hidden) as [rs|] eqn:Em; [|discriminate].
    apply mapM_Some_1 in Em.
    assert (Hrs : forall q, q ∈ rs -> get (board g) (rx q) (ry q) = Some HIDDEN /\
                                      calc_risk g (rx q) (ry q) = Some (risk q)).
    { intros q Hq. apply list_elem_of_lookup in Hq as [k Hk].
      destruct (Forall2_lookup_r _ _ _ _ _ Em Hk) as (p & Hp & E).
      apply risk_of_Some in E as (E & -> & ->). split; [|done].
      apply Hh. by eapply list_elem_of_lookup_2. }
    assert (Hall : forall x y r', get (board g) x y = Some HIDDEN -> calc_risk g x y = Some r' ->
                   exists q, q ∈ sort_by_risk rs /\ risk q = r').
    { intros x y r' Hg Hcr. apply (Hh (x, y)) in Hg. apply list_elem_of_lookup in Hg as [k Hk].
      destruct (Forall2_lookup_l _ _ _ _ _ Em Hk) as (q & Hq & E).
      apply risk_of_Some in E as (E & _ & _). simpl in E. rewrite Hcr in E. injection E as ->.
      exists q. split; [|done]. rewrite sort_by_risk_perm. by eapply list_elem_of_lookup_2. }
    pose proof (sort_by_risk_sorted rs) as Hs.
    assert (Hin : forall q, q ∈ sort_by_risk rs -> q ∈ rs)
      by (intros q; by rewrite sort_by_risk_perm).
    destruct (sort_by_risk rs) as [|best_reveal tl] eqn:Es; [discriminate|].
    destruct (last (best_reveal :: tl)) as [best_flag|] eqn:El; [|discriminate].
    destruct (Qle_bool 1 (risk best_flag)) eqn:Eq; intros [= <-]; cbn [cx cy type];
      right; (split; [done|]).
    + assert (Hf : best_flag ∈ best_reveal :: tl) by (by apply last_Some_elem_of).
      destruct (Hrs best_flag (Hin _ Hf)) as [Hg Hcr]. split; [done|].
      exists (risk best_flag). split; [done|]. left. split; [done|]. split.
      * by apply Qle_bool_iff.
      * intros x y r' Hgx Hcx. destruct (Hall x y r' Hgx Hcx) as (q & Hq & <-).
        exact (sorted_last_ge _ _ _ Hs El Hq).
    + assert (Hf : best_reveal ∈ best_reveal :: tl) by (apply elem_of_cons; by left).
      destruct (Hrs best_reveal (Hin _ Hf)) as [Hg Hcr]. split; [done|].
      exists (risk best_reveal). split; [done|]. right. split; [done|]. split.
      * apply Qle_lt_trans with (risk best_flag).
        -- exact (sorted_head_le _ _ _ Hs (last_Some_elem_of _ _ El)).
        -- apply Qnot_le_lt. intros H. apply Qle_bool_iff in H. congruence.
      * intros x y r' Hgx Hcx. destruct (Hall x y r' Hgx Hcx) as (q & Hq & <-).
        exact (sorted_head_le _ _ _ Hs Hq).
Qed.

Lemma next_no_hidden n g :
  rect (board g) -> is_game_over (state g) = false ->
  HIDDEN ∉ concat (rows (board g)) -> next n g = AIError.
Proof.
  intros Hr Eo Hn. unfold next. rewrite Eo.
  destruct (board_iter_cells (board g) Hr) as (cells & -> & Hc).
  pose proof (hidden_cells_spec _ _ Hc) as Hh.
  replace (map _ (filter _ cells)) with (@nil pos).
  - simpl. done.
  - symmetry. apply nil_length_inv. destruct (map _ _) as [|p l] eqn:E; [done|].
    exfalso. assert (Hp : p ∈ p :: l) by (apply elem_of_cons; by left).
    apply Hh in Hp. apply Hn.
    unfold get in Hp. destruct (is_in_bounds _ _ _); [|discriminate].
    destruct (rows (board g) !! Z.to_nat p.2) as [row|] eqn:Er; simpl in Hp; [|discriminate].
    apply list_elem_of_In, in_concat. exists row. split.
    + apply list_elem_of_In. by eapply list_elem_of_lookup_2.
    + apply list_elem_of_In. by eapply list_elem_of_lookup_2.
Qed.

Lemma cached_ok b c x y st :
  cache_ok b c ->
  (count_neighbours_state_cached b c x y st).1 = count_neighbours_state b x y st /\
  cache_ok b (count_neighbours_state_cached b c x y st).2.
Proof.
  intros Hc. unfold count_neighbours_state_cached.
  destruct (c !! (x, y, st)) as [v|] eqn:E; simpl.
  - split; [exact (Hc _ _ E)|done].
  - split; [done|]. intros k v Hk. unfold cache in *.
    apply lookup_insert_Some in Hk as [[<- <-]|[Hne Hk]]; [done|]. by apply Hc.
Qed.

End AIFacts.

Module CellOps.
Import BoardState Invariants.

Lemma get_set b x y v px py :
  get (set b x y v) px py =
  (fun c => if bool_decide ((px, py) = (x, y)) then v else c) <$> get b px py.
Proof.
  unfold set. destruct (is_in_bounds b x y) eqn:Hxy.
  - unfold get. change (is_in_bounds (with_rows b _) px py) with (is_in_bounds b px py).
    destruct (is_in_bounds b px py) eqn:Hp; [|done].
    unfold is_in_bounds in Hxy, Hp. rewrite !andb_true_iff, !Z.leb_le, !Z.ltb_lt in Hxy, Hp.
    cbn [rows with_rows]. unfold rows_store.
    destruct (decide (py = y)) as [->|Hy].
    + rewrite list_lookup_alter_eq. destruct (rows b !! Z.to_nat y) as [r|]; simpl; [|done].
      destruct (decide (px = x)) as [->|Hx].
      * destruct (r !! Z.to_nat x) eqn:E; simpl.
        -- rewrite list_lookup_insert_eq by (apply lookup_lt_is_Some; eauto).
           rewrite bool_decide_eq_true_2 by done. done.
        -- rewrite list_insert_ge by (by apply lookup_ge_None). by rewrite E.
      * rewrite list_lookup_insert_ne by lia. destruct (r !! Z.to_nat px); simpl; [|done].
        rewrite bool_decide_eq_false_2 by congruence. done.
    + rewrite list_lookup_alter_ne by lia. destruct (_ ≫= _); simpl; [|done].
      rewrite bool_decide_eq_false_2 by congruence. done.
  - destruct (get b px py) as [c|] eqn:E; simpl; [|done].
    rewrite bool_decide_eq_false_2; [done|]. intros [= -> ->].
    apply UpdateFacts.get_some_in_bounds in E. congruence.
Qed.

Lemma foldl_set_cells (l : list pos) b v px py :
  get (foldl (fun b' (m : pos) => set b' m.1 m.2 v) b l) px py =
  (fun c => if bool_decide ((px, py) ∈ l) then v else c) <$> get b px py.
Proof.
  revert b. induction l as [|m l IH]; intros b; simpl.
  - destruct (get b px py); simpl; [|done].
    done.
  - rewrite IH, get_set. destruct (get b px py); simpl; [|done]. f_equal.
    destruct m as [mx my]. simpl.
    repeat case_bool_decide; try done; exfalso; rewrite elem_of_cons in *; tauto.
Qed.

Lemma reveal_mines_cells b px py :
  get (reveal_mines b) px py =
  (fun c => if bool_decide ((px, py) ∈ mines b) then MINE else c) <$> get b px py.
Proof.
  unfold reveal_mines. rewrite foldl_set_cells. destruct (get b px py); simpl; [|done].
  f_equal. case_bool_decide as H1; case_bool_decide as H2; try done; exfalso;
    rewrite elem_of_elements in H1; tauto.
Qed.

Lemma reveal_from_out_of_bounds b x y : is_in_bounds b x y = false -> reveal_from b x y = b.
Proof.
  intros Hb. unfold reveal_from, reveal_fuel.
  replace (9 * (Z.to_nat (width b) * Z.to_nat (height b)) + 2)%nat
    with (S (S (9 * (Z.to_nat (width b) * Z.to_nat (height b))))) by lia.
  cbn [reveal_loop reveal_start to_visit visited board fst snd].
  unfold fill. cbn [board visited]. rewrite Hb. done.
Qed.

End CellOps.

Module GameOps.
Import BoardState MineSweeper Invariants CellOps.

Lemma rows_store_twice rs x y v w :
  rs !! Z.to_nat y ≫= (fun r => r !! Z.to_nat x) = Some w ->
  rows_store (rows_store rs x y v) x y w = rs.
Proof.
  intros H. unfold rows_store. apply list_eq. intros i.
  destruct (decide (i = Z.to_nat y)) as [->|Hne].
  - rewrite !list_lookup_alter_eq. destruct (rs !! Z.to_nat y) as [r|]; simpl in *; [|done].
    f_equal. rewrite list_insert_insert_eq. by apply list_insert_id.
  - by rewrite !list_lookup_alter_ne by congruence.
Qed.

Ltac eval_bits :=
  repeat match goal with
  | |- context [has_bit ?a ?b] =>
      let e := eval vm_compute in (has_bit a b) in change (has_bit a b) with e
  end.

Lemma toggle_cmd_moved x y : SpecSide.moved_pos (Cmd CmdType.TOGGLE_FLAG x y) = (x, y).
Proof. unfold SpecSide.moved_pos. cbn [type cx cy]. eval_bits. f_equal; lia. Qed.

Lemma toggle_first g x y :
  state g = ACTIVE -> get (board g) x y = Some HIDDEN ->
  num_mines_flagged g + (if bool_decide ((x, y) ∈ mines (board g)) then 1 else 0)
    <> num_mines (board g) ->
  update g (Some (Cmd CmdType.TOGGLE_FLAG x y)) =
  G (set (board g) x y FLAG) ACTIVE (x, y) (num_flags g + 1)
    (num_mines_flagged g + (if bool_decide ((x, y) ∈ mines (board g)) then 1 else 0)).
Proof.
  intros Hs Hg Hv. unfold update. rewrite Hs. cbn [is_starting is_game_over type].
  change (CmdType.TOGGLE_FLAG =? CmdType.NONE) with false. cbn [orb].
  rewrite UpdateFacts.movement_pos, toggle_cmd_moved.
  rewrite UpdateFacts.clamp_in_bounds by (by eapply UpdateFacts.get_some_in_bounds).
  unfold handle_reveal. change (has_bit (type (Cmd CmdType.TOGGLE_FLAG x y)) CmdType.REVEAL)
    with false. cbn [negb].
  unfold handle_toggle_flag. change (has_bit (type (Cmd CmdType.TOGGLE_FLAG x y))
    CmdType.TOGGLE_FLAG) with true. cbn [negb with_cursor board cursor_pos state num_flags
    num_mines_flagged].
  rewrite bool_decide_eq_true_2 by done. unfold cmd_pos. cbn [cx cy].
  destruct (CellFacts.set_dims (board g) x y FLAG) as (_ & _ & Enm & _).
  case_bool_decide as Hm; unfold all_mines_found, with_counts; cbn [num_mines_flagged board];
    rewrite Enm;
    (destruct (_ =? _) eqn:E; [apply Z.eqb_eq in E; lia|]); cbn [andb];
    rewrite Hs; f_equal; lia.
Qed.

Lemma toggle_twice g x y :
  state g = ACTIVE -> get (board g) x y = Some HIDDEN ->
  num_mines_flagged g + (if bool_decide ((x, y) ∈ mines (board g)) then 1 else 0)
    <> num_mines (board g) ->
  update (update g (Some (Cmd CmdType.TOGGLE_FLAG x y))) (Some (Cmd CmdType.TOGGLE_FLAG x y)) =
  with_cursor g (x, y).
Proof.
  intros Hs Hg Hv. rewrite (toggle_first g x y Hs Hg Hv).
  pose proof Hg as Hb. apply UpdateFacts.get_some_in_bounds in Hb.
  destruct (CellFacts.set_dims (board g) x y FLAG) as (Ew & Eh & Enm & Em).
  unfold update. cbn [is_starting is_game_over state type].
  change (CmdType.TOGGLE_FLAG =? CmdType.NONE) with false. cbn [orb].
  rewrite UpdateFacts.movement_pos, toggle_cmd_moved. cbn [board].
  rewrite UpdateFacts.clamp_in_bounds by (rewrite (ShapeFacts.in_bounds_dims (board g)); done).
  unfold handle_reveal. change (has_bit (type (Cmd CmdType.TOGGLE_FLAG x y)) CmdType.REVEAL)
    with false. cbn [negb].
  unfold handle_toggle_flag. change (has_bit (type (Cmd CmdType.TOGGLE_FLAG x y))
    CmdType.TOGGLE_FLAG) with true. cbn [negb with_cursor board cursor_pos state num_flags
    num_mines_flagged].
  assert (HF : get (set (board g) x y FLAG) x y = Some FLAG).
  { rewrite get_set, Hg. simpl. by rewrite bool_decide_eq_true_2. }
  rewrite HF, bool_decide_eq_false_2 by (vm_compute; discriminate).
  assert (Hrows : with_rows (set (board g) x y FLAG)
                    (rows_store (rows (set (board g) x y FLAG)) x y HIDDEN) = board g).
  { unfold set. rewrite Hb. rewrite BoardFacts.with_rows_with_rows, BoardFacts.rows_with_rows.
    rewrite rows_store_twice; [apply BoardFacts.with_rows_rows|].
    unfold get in Hg. rewrite Hb in Hg. done. }
  unfold cmd_pos. cbn [cx cy]. rewrite Em. unfold with_cursor.
  case_bool_decide; unfold with_counts; cbn [num_flags num_mines_flagged];
    rewrite Hrows, Hs; f_equal; lia.
Qed.

Lemma run_game_over g cs : is_game_over (state g) = true -> Scenarios.run g cs = g.
Proof.
  intros Ho. unfold Scenarios.run. induction cs as [|c cs IH]; simpl; [done|].
  assert (E : update g c = g).
  { unfold update. destruct (state g); try discriminate; destruct c as [c|]; try done;
      simpl; by rewrite orb_true_r. }
  by rewrite E.
Qed.

End GameOps.

Module KeyFacts.
Import Curses.

Lemma cli_movement_lookup k t :
  dict_lookup CliCmdKey.MOVEMENT_KEYS k = Some t ->
  (k = KEY_DOWN \/ k = CliCmdKey.J_KEY) /\ t = CmdType.DOWN \/
  (k = KEY_LEFT \/ k = CliCmdKey.H_KEY) /\ t = CmdType.LEFT \/
  (k = KEY_RIGHT \/ k = CliCmdKey.L_KEY) /\ t = CmdType.RIGHT \/
  (k = KEY_UP \/ k = CliCmdKey.K_KEY) /\ t = CmdType.UP.
Proof.
  cbn [dict_lookup CliCmdKey.MOVEMENT_KEYS].
  repeat (case Z.eqb_spec; intros ?; [intros [= <-]; subst; tauto|]). discriminate.
Qed.

Lemma map_keys_agree k x y :
  k ∉ [CliCmdKey.H_KEY; CliCmdKey.J_KEY; CliCmdKey.K_KEY; CliCmdKey.L_KEY] ->
  CliCmdKey.map_key_to_command k x y = CmdKey.map_key_to_command k x y.
Proof.
  rewrite !not_elem_of_cons. intros (H1 & H2 & H3 & H4 & _).
  unfold CliCmdKey.map_key_to_command, CmdKey.map_key_to_command.
  cbn [dict_lookup CliCmdKey.MOVEMENT_KEYS CmdKey.MOVEMENT_KEYS CliCmdKey.QUIT_KEY CmdKey.QUIT_KEY
       CliCmdKey.REVEAL_KEY CmdKey.REVEAL_KEY CliCmdKey.TOGGLE_FLAG_KEY CmdKey.TOGGLE_FLAG_KEY].
  unfold CliCmdKey.H_KEY, CliCmdKey.J_KEY, CliCmdKey.K_KEY, CliCmdKey.L_KEY in *.
  repeat (case Z.eqb_spec; intros; try subst; try done; try lia).
Qed.

Lemma map_hjkl_none k x y :
  k ∈ [CliCmdKey.H_KEY; CliCmdKey.J_KEY; CliCmdKey.K_KEY; CliCmdKey.L_KEY] ->
  CmdKey.map_key_to_command k x y = KeyCommand (Cmd CmdType.NONE x y).
Proof.
  rewrite !elem_of_cons, elem_of_nil. intros Hk.
  destruct Hk as [->|[->|[->|[->|[]]]]]; reflexivity.
Qed.

End KeyFacts.

Module RenderFacts.
Import BoardState Invariants Render.

Lemma valid_cases v :
  valid_cell v ->
  v = 0 \/ v = 1 \/ v = 2 \/ v = 3 \/ v = 4 \/ v = 5 \/ v = 6 \/ v = 7 \/ v = 8 \/
  v = HIDDEN \/ v = MINE \/ v = FLAG.
Proof. unfold valid_cell. lia. Qed.

Lemma render_valid v : valid_cell v -> map_cell_state_to_renderable v <> Strings.INVALID_CELL.
Proof.
  intros Hv. apply valid_cases in Hv.
  repeat destruct Hv as [->|Hv]; vm_compute; try discriminate. subst. vm_compute. discriminate.
Qed.

Lemma render_inj v1 v2 :
  valid_cell v1 -> valid_cell v2 ->
  map_cell_state_to_renderable v1 = map_cell_state_to_renderable v2 -> v1 = v2.
Proof.
  intros H1 H2. apply valid_cases in H1, H2.
  repeat destruct H1 as [->|H1]; try subst v1;
  repeat destruct H2 as [->|H2]; try subst v2; vm_compute; congruence.
Qed.

End RenderFacts.

Module MoveFacts.
Import BoardState MineSweeper.

Lemma move_update g t x y :
  state g = ACTIVE -> t ∈ [CmdType.DOWN; CmdType.LEFT; CmdType.RIGHT; CmdType.UP] ->
  update g (Some (Cmd t x y)) =
  with_cursor g (clamp_pos (board g) (SpecSide.moved_pos (Cmd t x y))).
Proof.
  intros Hs Ht. unfold update. rewrite Hs. cbn [is_starting is_game_over type].
  rewrite elem_of_cons, elem_of_cons, elem_of_cons, list_elem_of_singleton in Ht.
  destruct Ht as [-> | [-> | [-> | ->]]]; cbn [orb];
  (match goal with |- context [?a =? CmdType.NONE] =>
     let e := eval vm_compute in (a =? CmdType.NONE) in change (a =? CmdType.NONE) with e end);
  cbn [orb]; unfold handle_reveal, handle_toggle_flag; cbn [type]; GameOps.eval_bits;
  cbn [negb]; apply UpdateFacts.movement_pos.
Qed.

End MoveFacts.

Module NewFacts.
Import BoardState MineSweeper.

Lemma new_none_iff w h d l1 l2 :
  MineSweeper.new w h d l1 l2 = None <-> ~ (0 <= d <= 40 /\ 1 < w /\ 1 < h).
Proof.
  unfold MineSweeper.new. destruct (0 <=? d) eqn:E0; destruct (d <=? 40) eqn:E1; cbn [andb negb];
    [|split; [intros _; lia|done]..].
  apply Z.leb_le in E0, E1. unfold BoardState.new.
  replace (Qle_bool 0 (DIFFICULTY_STEP * inject_Z d) &&
           Qle_bool (DIFFICULTY_STEP * inject_Z d) 1) with true.
  2:{ symmetry. apply andb_true_iff. unfold Qle_bool, DIFFICULTY_STEP, inject_Z, Qmult.
      cbn [Qnum Qden]. rewrite !Z.leb_le. simpl. lia. }
  cbv [negb].
  destruct (w <=? 1) eqn:Ew; [apply Z.leb_le in Ew; split; [intros _; lia|done]|].
  destruct (h <=? 1) eqn:Eh; [apply Z.leb_le in Eh; split; [intros _; lia|done]|].
  apply Z.leb_gt in Ew, Eh.
  replace (sample_ok _ _) with true; [split; [discriminate|lia]|].
  symmetry. unfold sample_ok, positions. rewrite length_prod, !length_seqZ.
  unfold py_int, DIFFICULTY_STEP, inject_Z, Qmult. cbn [Qnum Qden].
  change (Z.pos (1 * (40 * 1))) with 40.
  assert (Hwh : 0 <= w * h - 1) by nia.
  rewrite Z.quot_div_nonneg by (try apply Z.mul_nonneg_nonneg; lia).
  assert (Hq : ((w * h - 1) * (1 * d)) / 40 <= w * h - 1).
  { apply Z.div_le_upper_bound; [lia|]. nia. }
  apply andb_true_iff. rewrite !Z.leb_le. nia.
Qed.

End NewFacts.

Module ExtraLemmas.
Import BoardState Invariants.
Lemma rect_get_some b x y : rect b -> is_in_bounds b x y = true -> exists v, get b x y = Some v.
Proof.
  intros [Hl Hf] Hb. unfold get. rewrite Hb.
  unfold is_in_bounds in Hb. rewrite !andb_true_iff, !Z.leb_le, !Z.ltb_lt in Hb.
  destruct (rows b !! Z.to_nat y) as [r|] eqn:E.
  - pose proof (Forall_lookup_1 _ _ _ _ Hf E) as Hr. simpl.
    destruct (r !! Z.to_nat x) as [v|] eqn:Ev; [eauto|].
    apply lookup_ge_None in Ev. rewrite Hr in Ev. lia.
  - apply lookup_ge_None in E. rewrite Hl in E. lia.
Qed.

Lemma cached_queries_ok b c qs :
  ExtraDefs.cache_ok b c ->
  ExtraDefs.cached_queries b c qs =
  map (fun q : Z * Z * Z => MineSweeperAI.count_neighbours_state b q.1.1 q.1.2 q.2) qs.
Proof.
  revert c. induction qs as [|[[x y] st] qs IH]; intros c Hc; simpl; [done|].
  destruct (AIFacts.cached_ok b c x y st Hc) as [H1 H2].
  destruct (AIDecision.count_neighbours_state_cached b c x y st) as [v c'] eqn:E.
  simpl in H1, H2. rewrite H1, IH by done. done.
Qed.
End ExtraLemmas.

Lemma reachable_run g cs :
  MineSweeper.reachable g -> MineSweeper.reachable (Scenarios.run g cs).
Proof.
  unfold Scenarios.run. revert g. induction cs as [|c cs IH]; intros g Hg; simpl; [done|].
  apply IH. by apply MineSweeper.reach_update.
Qed.

Lemma reachable_game0 : MineSweeper.reachable Scenarios.game0.
Proof. apply (MineSweeper.reach_new 3 3 0 [(0, 0)] [(0, 0)]). vm_compute. reflexivity. Qed.

(** * The claims *)

Section Claims.
Import BoardState Invariants BoardFacts CellFacts GameFacts MineSweeper MineSweeperAI.

(** C3: in every reachable game state before defeat, every mine position
    shows [Hidden] or [Flagged]; in particular [reveal_from], which the
    game only calls on a position that is not a mine, never writes a mine
    position when started on a non-mine. *)
Theorem C3_mines_stay_covered (g : game) :
  reachable g -> state g <> DEFEAT ->
  (forall p, p ∈ mines (board g) -> forall v, get (board g) p.1 p.2 = Some v ->
             v = HIDDEN \/ v = FLAG) /\
  (forall x y, (x, y) ∉ mines (board g) -> forall p, p ∈ mines (board g) ->
               get (reveal_from (board g) x y) p.1 p.2 = get (board g) p.1 p.2).
Proof.
  intros Hr Hd. split.
  - apply (reachable_inv g Hr Hd).
  - intros x y Hxy p Hp. by apply reveal_from_keeps_mines.
Qed.

Lemma C3_witness :
  state Scenarios.centre_revealed <> DEFEAT /\
  (forall p, p ∈ mines (board Scenarios.centre_revealed) ->
     forall v, get (board Scenarios.centre_revealed) p.1 p.2 = Some v ->
     v = HIDDEN \/ v = FLAG).
Proof.
  assert (Hs : state Scenarios.centre_revealed <> DEFEAT) by (vm_compute; discriminate).
  split; [exact Hs|].
  apply (C3_mines_stay_covered Scenarios.centre_revealed
           (reachable_run _ _ (reachable_run _ _ reachable_game0)) Hs).
Defined.

(** C6: [reveal_from] is idempotent: a second call from the same origin
    right after the first leaves every cell as the first call left it. *)
Theorem C6_reveal_from_idempotent (b : BoardState.t) (x y : Z) :
  reveal_from (reveal_from b x y) x y = reveal_from b x y.
Proof.
  destruct (reveal_from_overwrite b x y) as (V & _ & Hr).
  pose proof (Hr (rows b)) as H1. rewrite with_rows_rows in H1.
  rewrite H1, Hr, overwrite_twice. done.
Qed.

(** C9: the worklist loop of [reveal_from] terminates on every board and
    from every origin: it empties its worklist within
    [9 * width * height + 2] iterations, the fuel [reveal_from] runs it
    with, because every iteration lowers the measure
    [9 * |unvisited in-bounds positions| + |to_visit|]. *)
Theorem C9_reveal_from_terminates (b : BoardState.t) (x y : Z) :
  (forall V p rest B,
     (measure (fill (RS V rest B) p.1 p.2) < measure (RS V (p :: rest) B))%nat) /\
  exists s, reveal_loop (reveal_fuel b) (reveal_start b x y) = Some s /\ to_visit s = [].
Proof.
  split.
  - intros. apply fill_measure.
  - apply reveal_loop_total, reveal_start_measure.
Qed.

(** C10: in the Active state every processed command (type not [NONE])
    sets the cursor to [clamp_pos] of the command's carried position moved
    by the command's directional deltas; the result of [update] does not
    depend on the previous cursor; and for a command without direction
    bits and an in-bounds carried position, the new cursor is the carried
    position, the cell that the reveal and toggle-flag handlers examine. *)
Theorem C10_cursor_from_command (g : game) (c : Command) :
  state g = ACTIVE -> type c <> CmdType.NONE ->
  cursor_pos (update g (Some c)) = clamp_pos (board g) (SpecSide.moved_pos c) /\
  (forall q, cursor_pos (update (with_cursor g q) (Some c)) = cursor_pos (update g (Some c))) /\
  (Z.land (type c) CmdType.MOVE = 0 -> is_in_bounds (board g) (cx c) (cy c) = true ->
   cursor_pos (update g (Some c)) = cmd_pos c).
Proof.
  intros Hs Ht.
  assert (Hu : forall q, update (with_cursor g q) (Some c) =
                         handle_toggle_flag (handle_reveal (handle_movement g c) c) c).
  { intros q. unfold update. cbn [state with_cursor]. rewrite Hs. simpl.
    apply Z.eqb_neq in Ht. rewrite Ht. simpl. done. }
  assert (Hu0 : update g (Some c) =
                handle_toggle_flag (handle_reveal (handle_movement g c) c) c).
  { rewrite <- (Hu (cursor_pos g)). by destruct g. }
  assert (H1 : cursor_pos (update g (Some c)) = clamp_pos (board g) (SpecSide.moved_pos c)).
  { rewrite Hu0, UpdateFacts.toggle_cursor, UpdateFacts.reveal_cursor,
      UpdateFacts.movement_pos. done. }
  split; [done|]. split.
  - intros q. rewrite Hu, Hu0. done.
  - intros Hm Hb. rewrite H1.
    unfold SpecSide.moved_pos.
    rewrite !(UpdateFacts.no_move_bits (type c)) by (done || reflexivity).
    rewrite !Z.add_0_r, !Z.sub_0_r. by apply UpdateFacts.clamp_in_bounds.
Qed.

Lemma C10_witness :
  state Scenarios.started = ACTIVE /\ type (Cmd CmdType.LEFT 0 1) <> CmdType.NONE /\
  cursor_pos (update Scenarios.started (Some (Cmd CmdType.LEFT 0 1))) =
  clamp_pos (board Scenarios.started) (SpecSide.moved_pos (Cmd CmdType.LEFT 0 1)).
Proof.
  assert (Hs : state Scenarios.started = ACTIVE) by (vm_compute; reflexivity).
  assert (Ht : type (Cmd CmdType.LEFT 0 1) <> CmdType.NONE) by (vm_compute; discriminate).
  split; [exact Hs|]. split; [exact Ht|].
  exact (proj1 (C10_cursor_from_command Scenarios.started (Cmd CmdType.LEFT 0 1) Hs Ht)).
Defined.

(** C5: a Reveal command in the Active state has an effect only if the
    cell at the (new) cursor is [Hidden]; when it has one, a cursor on a
    mine ends the game in Defeat with the mines revealed, and otherwise
    the board becomes [reveal_from] at the cursor.  The flag counters are
    untouched. *)
Theorem C5_reveal_command (g : game) (x y : Z) :
  state g = ACTIVE ->
  (let g' := update g (Some (Cmd CmdType.REVEAL x y)) in
  let p := clamp_pos (board g) (x, y) in
  cursor_pos g' = p /\ num_flags g' = num_flags g /\
  num_mines_flagged g' = num_mines_flagged g /\
  ((board g' = board g /\ state g' = ACTIVE) \/
   (get (board g) p.1 p.2 = Some HIDDEN /\
    ((p ∈ mines (board g) /\ state g' = DEFEAT /\ board g' = reveal_mines (board g)) \/
     ((p ∉ mines (board g)) /\ state g' = ACTIVE /\
      board g' = reveal_from (board g) p.1 p.2))))).
Proof.
  intros Hs g' p.
  assert (Hg' : g' = handle_reveal (with_cursor g p) (Cmd CmdType.REVEAL x y)).
  { subst g' p. unfold update. rewrite Hs. simpl.
    unfold handle_movement. cbn [type cx cy]. 
    replace (handle_toggle_flag _ _) with
      (handle_reveal (with_cursor g (clamp_pos (board g) (x, y))) (Cmd CmdType.REVEAL x y));
      [done|].
    unfold handle_toggle_flag at 1. cbn [type]. simpl negb. cbv iota. done. }
  rewrite Hg'. unfold handle_reveal. cbn [type cx cy]. simpl negb. cbv iota.
  case_bool_decide as Hh.
  - assert (Hp : p = (x, y)).
    { subst p. apply UpdateFacts.clamp_in_bounds. eapply UpdateFacts.get_some_in_bounds.
      exact Hh. }
    cbn [board cursor_pos with_cursor]. rewrite Hp. cbn [fst snd].
    case_bool_decide as Hm.
    + unfold end_game. cbn. split; [done|]. split; [done|]. split; [done|].
      right. split; [done|]. left. split; [exact Hm|auto].
    + cbn. split; [done|]. split; [done|]. split; [done|].
      right. split; [done|]. right. split; [exact Hm|auto].
  - cbn. split; [done|]. split; [done|]. split; [done|]. left. auto.
Qed.

Lemma C5_witness :
  state Scenarios.started = ACTIVE /\
  cursor_pos (update Scenarios.started (Some (Cmd CmdType.REVEAL 1 1))) =
  clamp_pos (board Scenarios.started) (1, 1).
Proof.
  assert (Hs : state Scenarios.started = ACTIVE) by (vm_compute; reflexivity).
  split; [exact Hs|].
  exact (proj1 (C5_reveal_command Scenarios.started 1 1 Hs)).
Defined.

(** C7 (counterexample): on the 3x3 board with its one mine at (0, 0), the
    count [reveal_from] uses at (0, 0) is 1, while no 8-neighbour of (0, 0)
    is a mine: [_adjacent_pos] lists the whole 3x3 block, the position
    itself included. *)
Lemma C7_counterexample :
  count_adjacent_mines (board Scenarios.game0) 0 0 = 1 /\
  size (SpecSide.neighbours8 (board Scenarios.game0) 0 0 ∩ mines (board Scenarios.game0))
    = 0%nat.
Proof. split; vm_compute; reflexivity. Qed.

(** C7 (amended): on a board whose mines are all in bounds, the count used
    by the reveal engine at [(x, y)] is the number of mines among the
    in-bounds 8-neighbours of [(x, y)], plus one when [(x, y)] is itself a
    mine; so the two agree exactly at the positions that are not mines. *)
Theorem C7_count_adjacent_mines (b : BoardState.t) (x y : Z) :
  set_Forall (fun m : pos => is_in_bounds b m.1 m.2 = true) (mines b) ->
  count_adjacent_mines b x y =
  Z.of_nat (size (SpecSide.neighbours8 b x y ∩ mines b)) +
  (if bool_decide ((x, y) ∈ mines b) then 1 else 0).
Proof. apply CountFacts.count_adjacent_neighbours8. Qed.

Lemma C7_witness :
  set_Forall (fun m : pos => is_in_bounds (board Scenarios.game0) m.1 m.2 = true)
             (mines (board Scenarios.game0)) /\
  count_adjacent_mines (board Scenarios.game0) 1 1 =
  Z.of_nat (size (SpecSide.neighbours8 (board Scenarios.game0) 1 1 ∩
                  mines (board Scenarios.game0))) +
  (if bool_decide ((1, 1) ∈ mines (board Scenarios.game0)) then 1 else 0).
Proof.
  assert (Hm : set_Forall (fun m : pos => is_in_bounds (board Scenarios.game0) m.1 m.2 = true)
                          (mines (board Scenarios.game0))).
  { apply set_Forall_elements.
    apply (@bool_decide_unpack _ (@Forall_dec _ _ (fun m => bool_eq_dec _ _) _)).
    vm_compute. reflexivity. }
  split; [exact Hm|]. exact (C7_count_adjacent_mines (board Scenarios.game0) 1 1 Hm).
Defined.



(** C8 (counterexample): in a reachable game where the cells (2, 2) and
    (2, 1) next to the revealed [1] at (1, 1) are flagged although the only
    mine is at (0, 0), the hidden cell (1, 0) gets a negative risk: the
    revealed [1] contributes [(1 - 2) / 4]. *)
Lemma C8_counterexample :
  reachable Scenarios.over_flagged /\
  get (board Scenarios.over_flagged) 1 0 = Some HIDDEN /\
  exists r, calc_risk Scenarios.over_flagged 1 0 = Some r /\ (r < 0)%Q.
Proof.
  split; [apply reachable_run, reachable_run, reachable_run, reachable_game0|].
  split; [vm_compute; reflexivity|].
  eexists. split; [vm_compute; reflexivity|]. vm_compute. reflexivity.
Qed.

(** C8 (amended): for a hidden cell [(x, y)] the risk lies in [[0, 1]] when
    the global estimate [(num_mines - num_flags) / (num_hidden - num_flags)]
    is a proper fraction and no revealed neighbour [n] of [(x, y)] has more
    flagged neighbours than its count; [calc_risk] then raises no
    [ZeroDivisionError] either. *)
Theorem C8_risk_in_unit (g : game) (x y : Z) :
  get (board g) x y = Some HIDDEN ->
  0 <= BoardState.num_mines (board g) - game_num_flags g
    <= num_hidden (board g) - game_num_flags g ->
  0 < num_hidden (board g) - game_num_flags g ->
  (forall n v, n ∈ adjacent_pos x y -> get (board g) n.1 n.2 = Some v -> v <= 8 ->
               count_neighbours_state (board g) n.1 n.2 FLAG <= v) ->
  exists r, calc_risk g x y = Some r /\ (0 <= r <= 1)%Q.
Proof.
  intros Hh Hgm Hgh Hc. unfold calc_risk.
  destruct (is_definite_safe _ x y).
  { exists 0%Q. split; [done|]. split; discriminate. }
  destruct (is_definite_mine _ x y) eqn:Hdm.
  { exists 1%Q. split; [done|]. split; discriminate. }
  destruct (RiskFacts.py_div_unit_Z (BoardState.num_mines (board g) - game_num_flags g)
              (num_hidden (board g) - game_num_flags g) Hgm Hgh) as (gp & -> & Hgp).
  destruct (RiskFacts.mapM_unit (fun p : pos => prob_mine (board g) gp p.1 p.2)
                      (elements (adjacent_pos x y))) as (qs & -> & Hlen & Hall).
  { intros n Hn. apply elem_of_elements in Hn.
    apply (RiskFacts.prob_mine_unit _ _ x y); [done|done|done|].
    intros st Hst H8. split; [by apply Hc|].
    by apply (RiskFacts.not_definite_mine _ x y). }
  apply RiskFacts.py_div_unit.
  - pose proof (RiskFacts.Qsum_unit qs Hall) as Hs. exact Hs.
  - assert (Hxy : (x, y) ∈ elements (adjacent_pos x y)).
    { apply elem_of_elements, elem_of_adjacent. simpl. lia. }
    destruct (elements (adjacent_pos x y)) as [|e es]; [by apply elem_of_nil in Hxy|].
    rewrite Hlen. simpl length. change 0%Q with (inject_Z 0). rewrite <- Zlt_Qlt. lia.
Qed.

Lemma C8_witness :
  get (board Scenarios.started) 1 1 = Some HIDDEN /\
  exists r, calc_risk Scenarios.started 1 1 = Some r /\ (0 <= r <= 1)%Q.
Proof.
  assert (Hh : get (board Scenarios.started) 1 1 = Some HIDDEN) by (vm_compute; reflexivity).
  assert (Hk : BoardState.num_mines (board Scenarios.started) = 1) by (vm_compute; reflexivity).
  assert (Hn : num_hidden (board Scenarios.started) = 9) by (vm_compute; reflexivity).
  assert (Hf : game_num_flags Scenarios.started = 0) by (vm_compute; reflexivity).
  assert (Hb : board Scenarios.started =
               BoardState.reset (board Scenarios.started) [(0, 0)]) by (vm_compute; reflexivity).
  split; [exact Hh|].
  apply (C8_risk_in_unit Scenarios.started 1 1 Hh); [rewrite Hk, Hn, Hf; lia|
                                                    rewrite Hn, Hf; lia|].
  intros n v _ Hv H8. rewrite Hb in Hv. apply get_reset in Hv.
  rewrite Hv in H8. vm_compute in H8. exfalso. apply H8. reflexivity.
Defined.

(** C1 (code bug): Victory is declared while a flag sits on a cell that is
    not a mine.  The guard [no_empty_flagged] of [_all_mines_found]
    compares [_num_mines_flagged] (not [_num_flags]) with the mine count,
    so it holds whenever [all_flagged] does: here the centre (1, 1), not a
    mine, is flagged first, then the mine (0, 0), and the game is won. *)
Theorem C1_victory_with_non_mine_flag :
  (forall g, all_mines_found g = (num_mines_flagged g =? BoardState.num_mines (board g))) /\
  reachable Scenarios.flag_then_win /\
  state Scenarios.flag_then_win = VICTORY /\
  get (board Scenarios.flag_then_win) 1 1 = Some FLAG /\
  (1, 1) ∉ mines (board Scenarios.flag_then_win).
Proof.
  split.
  - intros g. unfold all_mines_found.
    destruct (Z.eqb_spec (num_mines_flagged g) (BoardState.num_mines (board g))) as [E|E];
      simpl; [apply Z.leb_le; lia|done].
  - split; [apply reachable_run, reachable_run, reachable_run, reachable_game0|].
    split; [vm_compute; reflexivity|]. split; [vm_compute; reflexivity|].
    apply (bool_decide_unpack ((1, 1) ∉ mines (board Scenarios.flag_then_win))).
    vm_compute. exact I.
Qed.

(** C2 (code bug): a toggle-flag on a revealed cell re-hides it.  The
    [else] branch of [_handle_toggle_flag] runs for every cell that is not
    [HIDDEN], not only a [FLAG]: here the flood-filled, empty corner (2, 2)
    becomes [HIDDEN] again and the flag count drops from 0 to -1. *)
Theorem C2_toggle_rehides_revealed :
  reachable Scenarios.corner_revealed /\
  state Scenarios.corner_revealed = ACTIVE /\
  get (board Scenarios.corner_revealed) 2 2 = Some EMPTY /\
  num_flags Scenarios.corner_revealed = 0 /\
  Scenarios.unflag_revealed =
    update Scenarios.corner_revealed (Some (Cmd CmdType.TOGGLE_FLAG 2 2)) /\
  get (board Scenarios.unflag_revealed) 2 2 = Some HIDDEN /\
  num_flags Scenarios.unflag_revealed = -1.
Proof.
  split; [apply reachable_run, reachable_run, reachable_game0|].
  repeat split; vm_compute; reflexivity.
Qed.

End Claims.

(** * Further properties of the code *)

Section Extras.
Import BoardState Invariants MineSweeper MineSweeperAI BoardIter AIDecision Render.

(** X1: every game state the program can reach (construction, then any
    [update]s and [reset]s) is well formed: the board is at least 2x2, its
    grid is [height] rows of [width] cells, every cell holds a count [0..8],
    [HIDDEN], [MINE] or [FLAG], and the cursor is on the board. *)
Theorem X1_reachable_game_wf (g : game) : reachable g -> game_wf g.
Proof. apply ShapeFacts.reachable_wf. Qed.
Lemma X1_witness : game_wf Scenarios.corner_revealed.
Proof.
  apply (X1_reachable_game_wf Scenarios.corner_revealed
           (reachable_run _ _ (reachable_run _ _ reachable_game0))).
Defined.

(** X2: in a reachable game every in-bounds cell has a value, and
    [map_cell_state_to_renderable] never renders it as the invalid glyph. *)
Theorem X2_reachable_cells_render (g : game) (x y : Z) :
  reachable g -> is_in_bounds (board g) x y = true ->
  exists v, get (board g) x y = Some v /\ map_cell_state_to_renderable v <> Strings.INVALID_CELL.
Proof.
  intros Hr Hb. destruct (ShapeFacts.reachable_wf g Hr) as [(_ & _ & Hrect & Hc) _].
  destruct (ExtraLemmas.rect_get_some _ _ _ Hrect Hb) as [v Hv].
  exists v. split; [done|]. apply RenderFacts.render_valid. exact (Hc _ _ _ Hv).
Qed.
Lemma X2_witness :
  exists v, get (board Scenarios.corner_revealed) 1 1 = Some v /\
            map_cell_state_to_renderable v <> Strings.INVALID_CELL.
Proof.
  apply (X2_reachable_cells_render Scenarios.corner_revealed 1 1
           (reachable_run _ _ (reachable_run _ _ reachable_game0))).
  vm_compute. reflexivity.
Defined.

(** X3: [map_cell_state_to_renderable] is injective on the cell values the
    game writes: two such values with the same glyph are equal. *)
Theorem X3_render_injective (v1 v2 : Z) :
  valid_cell v1 -> valid_cell v2 ->
  map_cell_state_to_renderable v1 = map_cell_state_to_renderable v2 -> v1 = v2.
Proof. apply RenderFacts.render_inj. Qed.
Lemma X3_witness : 3 = 3.
Proof.
  apply (X3_render_injective 3 3); [unfold valid_cell; lia|unfold valid_cell; lia|reflexivity].
Defined.

(** X4: [set] then [get]: the written position reads the new value when the
    grid has a cell there, every other position reads as before, and a
    position that is out of bounds is left as it was. *)
Theorem X4_get_set (b : BoardState.t) (x y v px py : Z) :
  get (set b x y v) px py =
  (fun c => if bool_decide ((px, py) = (x, y)) then v else c) <$> get b px py.
Proof. apply CellOps.get_set. Qed.

(** X5: [reveal_mines] turns the cell of every mine position into [MINE]
    and leaves every other cell unchanged. *)
Theorem X5_reveal_mines_cells (b : BoardState.t) (px py : Z) :
  get (reveal_mines b) px py =
  (fun c => if bool_decide ((px, py) ∈ mines b) then MINE else c) <$> get b px py.
Proof. apply CellOps.reveal_mines_cells. Qed.

(** X6: [reveal_from] started outside the board leaves it unchanged. *)
Theorem X6_reveal_from_out_of_bounds (b : BoardState.t) (x y : Z) :
  is_in_bounds b x y = false -> reveal_from b x y = b.
Proof. apply CellOps.reveal_from_out_of_bounds. Qed.
Lemma X6_witness : reveal_from (board Scenarios.started) 3 0 = board Scenarios.started.
Proof. apply X6_reveal_from_out_of_bounds. vm_compute. reflexivity. Defined.

(** X7: what [reveal_from(x, y)] writes: there is a set [V] of visited
    positions such that each cell in [V] now holds its adjacent-mine count
    and every other cell is unchanged; [V] lies on the board, contains the
    start when it is in bounds, holds nothing but the start and neighbours of
    visited [0]-cells, and contains every in-bounds neighbour of a visited
    [0]-cell; started on a non-mine, [V] holds no mine. *)
Theorem X7_reveal_from_flood (b : BoardState.t) (x y : Z) :
  exists V : gset pos,
    (forall px py, get (reveal_from b x y) px py =
       (fun c => if bool_decide ((px, py) ∈ V) then count_adjacent_mines b px py else c)
         <$> get b px py) /\
    (forall p, p ∈ V -> is_in_bounds b p.1 p.2 = true) /\
    (is_in_bounds b x y = true -> (x, y) ∈ V) /\
    (forall p, p ∈ V -> p = (x, y) \/
       exists p', p' ∈ V /\ count_adjacent_mines b p'.1 p'.2 = 0 /\ p ∈ adjacent_pos p'.1 p'.2) /\
    (forall p q, p ∈ V -> count_adjacent_mines b p.1 p.2 = 0 -> q ∈ adjacent_pos p.1 p.2 ->
       is_in_bounds b q.1 q.2 = true -> q ∈ V) /\
    ((x, y) ∉ mines b -> forall p, p ∈ V -> p ∉ mines b).
Proof.
  destruct (FloodFacts.reveal_from_flood b x y) as (V & Hr & Hm & Hin & Hsrc & Hcl).
  exists V. split; [|split; [|split; [|split; [|split]]]].
  - intros px py. rewrite Hr, ShapeFacts.get_overwrite, BoardFacts.with_rows_rows. done.
  - intros [px py] Hp. apply BoardFacts.elem_of_inb. by apply Hin.
  - intros Hb. destruct (Hcl (x, y) (or_introl eq_refl) Hb) as [H|H]; [done|].
    by apply elem_of_nil in H.
  - intros p Hp. by apply Hsrc; left.
  - intros p q Hp H0 Hq Hb.
    destruct (Hcl q (or_intror (ex_intro _ p (conj Hp (conj H0 Hq)))) Hb) as [H|H]; [done|].
    by apply elem_of_nil in H.
  - done.
Qed.

(** X8: the adjacent-mine count of a position that is not a mine is
    between 0 and 8. *)
Theorem X8_count_le_8 (b : BoardState.t) (x y : Z) :
  (x, y) ∉ mines b -> 0 <= count_adjacent_mines b x y <= 8.
Proof.
  intros Hm. split; [apply BoardFacts.count_nonneg|]. by apply ShapeFacts.count_le_8.
Qed.
Lemma X8_witness : 0 <= count_adjacent_mines (board Scenarios.started) 1 1 <= 8.
Proof.
  apply X8_count_le_8.
  apply (bool_decide_unpack ((1, 1) ∉ mines (board Scenarios.started))). vm_compute. exact I.
Defined.

(** X9: toggling a flag twice on a hidden cell, when the first toggle does
    not win the game, restores the board and both counters; only the cursor
    has moved to the cell. *)
Theorem X9_toggle_twice (g : game) (x y : Z) :
  state g = ACTIVE -> get (board g) x y = Some HIDDEN ->
  num_mines_flagged g + (if bool_decide ((x, y) ∈ mines (board g)) then 1 else 0)
    <> num_mines (board g) ->
  update (update g (Some (Cmd CmdType.TOGGLE_FLAG x y))) (Some (Cmd CmdType.TOGGLE_FLAG x y)) =
  with_cursor g (x, y).
Proof. apply GameOps.toggle_twice. Qed.
Lemma X9_witness :
  update (update Scenarios.started (Some (Cmd CmdType.TOGGLE_FLAG 1 1)))
         (Some (Cmd CmdType.TOGGLE_FLAG 1 1)) = with_cursor Scenarios.started (1, 1).
Proof.
  apply X9_toggle_twice; [vm_compute; reflexivity|vm_compute; reflexivity|vm_compute; discriminate].
Defined.

(** X10: once the game is won or lost, [update] changes nothing, whatever
    the commands. *)
Theorem X10_game_over_absorbing (g : game) (cs : list (option Command)) :
  is_game_over (state g) = true -> Scenarios.run g cs = g.
Proof. apply GameOps.run_game_over. Qed.
Lemma X10_witness :
  Scenarios.run (Scenarios.run Scenarios.started [Some (Cmd CmdType.REVEAL 0 0)])
    [Some (Cmd CmdType.REVEAL 1 1); Some (Cmd CmdType.TOGGLE_FLAG 2 2)] =
  Scenarios.run Scenarios.started [Some (Cmd CmdType.REVEAL 0 0)].
Proof. apply X10_game_over_absorbing. vm_compute. reflexivity. Defined.

(** X11: [_moves] never stops early: the test [risk == 0.0 or risk == 1.0]
    compares a [CellRisk] tuple with a float and is always false, so it
    yields the risk of every cell, and raises when one [_calc_risk] raises. *)
Theorem X11_moves_no_shortcut (g : game) (cells : list pos) :
  moves g cells = mapM (fun p : pos => r ← calc_risk g p.1 p.2; Some (CR r p.1 p.2)) cells.
Proof. apply AIFacts.moves_mapM. Qed.

(** X12: what [next] returns as a command: [NONE] at [(0, 0)] after the
    game is over; otherwise a command at a hidden cell, a [TOGGLE_FLAG] at a
    cell of highest risk when that risk is at least 1, else a [REVEAL] at a
    cell of lowest risk, which is below 1. *)
Theorem X12_next_choice (n : Z) (g : game) (c : Command) :
  rect (board g) -> next n g = AICommand c ->
  (is_game_over (state g) = true /\ c = Cmd CmdType.NONE 0 0) \/
  (is_game_over (state g) = false /\ get (board g) (cx c) (cy c) = Some HIDDEN /\
   exists r, calc_risk g (cx c) (cy c) = Some r /\
   ((type c = CmdType.TOGGLE_FLAG /\ (1 <= r)%Q /\
     forall x y r', get (board g) x y = Some HIDDEN -> calc_risk g x y = Some r' -> (r' <= r)%Q) \/
    (type c = CmdType.REVEAL /\ (r < 1)%Q /\
     forall x y r', get (board g) x y = Some HIDDEN -> calc_risk g x y = Some r' -> (r <= r')%Q))).
Proof. apply AIFacts.next_spec. Qed.
Lemma X12_witness :
  (is_game_over (state Scenarios.started) = true /\
   Cmd CmdType.REVEAL 0 0 = Cmd CmdType.NONE 0 0) \/
  (is_game_over (state Scenarios.started) = false /\
   get (board Scenarios.started) 0 0 = Some HIDDEN /\
   exists r, calc_risk Scenarios.started 0 0 = Some r /\
   ((CmdType.REVEAL = CmdType.TOGGLE_FLAG /\ (1 <= r)%Q /\
     forall x y r', get (board Scenarios.started) x y = Some HIDDEN ->
                    calc_risk Scenarios.started x y = Some r' -> (r' <= r)%Q) \/
    (CmdType.REVEAL = CmdType.REVEAL /\ (r < 1)%Q /\
     forall x y r', get (board Scenarios.started) x y = Some HIDDEN ->
                    calc_risk Scenarios.started x y = Some r' -> (r <= r')%Q))).
Proof.
  apply (X12_next_choice 0 Scenarios.started (Cmd CmdType.REVEAL 0 0)).
  - split; [vm_compute; reflexivity|]. vm_compute. repeat constructor.
  - vm_compute. reflexivity.
Defined.

(** X13: [next] raises ([risks[0]] on an empty list) when the game is not
    over and no cell is hidden. *)
Theorem X13_next_no_hidden (n : Z) (g : game) :
  rect (board g) -> is_game_over (state g) = false -> HIDDEN ∉ concat (rows (board g)) ->
  next n g = AIError.
Proof. apply AIFacts.next_no_hidden. Qed.
Lemma X13_witness :
  next 0 (G (mk 2 2 1 {[(0, 0)]} [[FLAG; 1]; [1; 1]]) ACTIVE (0, 0) 1 1) = AIError.
Proof.
  apply X13_next_no_hidden.
  - split; [reflexivity|]. repeat constructor.
  - reflexivity.
  - apply (bool_decide_unpack (HIDDEN ∉ concat [[FLAG; 1]; [1; 1]])). vm_compute. exact I.
Defined.

(** X14: the per-turn cache of [_count_neighbours_state] never changes a
    result: the calls of a turn return the counts computed directly. *)
Theorem X14_cache_queries (b : BoardState.t) (qs : list (Z * Z * Z)) :
  ExtraDefs.cached_queries b ∅ qs =
  map (fun q : Z * Z * Z => count_neighbours_state b q.1.1 q.1.2 q.2) qs.
Proof.
  apply ExtraLemmas.cached_queries_ok. intros k v Hk. unfold cache in Hk.
  by rewrite lookup_empty in Hk.
Qed.

(** X15: the key mapping of [minesweeper_cli.py] agrees with the one of
    [minesweeper.py] on every key but [h], [j], [k] and [l]; on those the CLI
    gives a movement and [minesweeper.py] gives [NONE]. *)
Theorem X15_key_maps_agree (k x y : Z) :
  if bool_decide (k ∈ [CliCmdKey.H_KEY; CliCmdKey.J_KEY; CliCmdKey.K_KEY; CliCmdKey.L_KEY])
  then CmdKey.map_key_to_command k x y = KeyCommand (Cmd CmdType.NONE x y) /\
       exists t, CliCmdKey.map_key_to_command k x y = KeyCommand (Cmd t x y) /\
                 t <> CmdType.NONE
  else CliCmdKey.map_key_to_command k x y = CmdKey.map_key_to_command k x y.
Proof.
  case_bool_decide as Hk.
  - split; [by apply KeyFacts.map_hjkl_none|].
    rewrite !elem_of_cons, elem_of_nil in Hk.
    destruct Hk as [-> | [-> | [-> | [-> | []]]]]; eexists; (split; [reflexivity|]);
      vm_compute; discriminate.
  - by apply KeyFacts.map_keys_agree.
Qed.

(** X16: both key mappings raise [StopIteration] exactly on [q]; every other
    key gives a command at the given position, whose type is one of
    [NONE], [TOGGLE_FLAG], [REVEAL], [LEFT], [RIGHT], [UP], [DOWN]. *)
Theorem X16_key_results (k x y : Z) :
  (CmdKey.map_key_to_command k x y = KeyStopIteration <-> k = CmdKey.QUIT_KEY) /\
  (CliCmdKey.map_key_to_command k x y = KeyStopIteration <-> k = CliCmdKey.QUIT_KEY) /\
  (forall c, (CmdKey.map_key_to_command k x y = KeyCommand c \/
              CliCmdKey.map_key_to_command k x y = KeyCommand c) ->
     cx c = x /\ cy c = y /\
     type c ∈ [CmdType.NONE; CmdType.TOGGLE_FLAG; CmdType.REVEAL;
               CmdType.LEFT; CmdType.RIGHT; CmdType.UP; CmdType.DOWN]).
Proof.
  unfold CmdKey.map_key_to_command, CliCmdKey.map_key_to_command.
  cbn [dict_lookup CliCmdKey.MOVEMENT_KEYS CmdKey.MOVEMENT_KEYS].
  unfold CmdKey.QUIT_KEY, CliCmdKey.QUIT_KEY, CmdKey.REVEAL_KEY, CliCmdKey.REVEAL_KEY,
    CmdKey.TOGGLE_FLAG_KEY, CliCmdKey.TOGGLE_FLAG_KEY.
  repeat (case Z.eqb_spec; intros; try subst);
    (split; [split; intros ?; solve [done | discriminate | exfalso; lia]|]);
    (split; [split; intros ?; solve [done | discriminate | exfalso; lia]|]);
    intros c [Hc|Hc]; (first [discriminate Hc | injection Hc as <-]); cbn [cx cy type];
    split_and!; try done;
    vm_compute; repeat (first [left; reflexivity|right]).
Qed.

(** X17: in an active game, a movement key of the CLI at [(x, y)] gives a
    command whose [update] only moves the cursor one step from [(x, y)],
    clamped to the board. *)
Theorem X17_movement_key_update (g : game) (k t x y : Z) :
  state g = ACTIVE -> dict_lookup CliCmdKey.MOVEMENT_KEYS k = Some t ->
  CliCmdKey.map_key_to_command k x y = KeyCommand (Cmd t x y) /\
  exists dx dy, Z.abs dx + Z.abs dy = 1 /\
    update g (Some (Cmd t x y)) = with_cursor g (clamp_pos (board g) (x + dx, y + dy)).
Proof.
  intros Hs Hk. split.
  - unfold CliCmdKey.map_key_to_command. rewrite Hk.
    destruct (KeyFacts.cli_movement_lookup k t Hk) as
      [[[-> | ->] _] | [[[-> | ->] _] | [[[-> | ->] _] | [[-> | ->] _]]]]; reflexivity.
  - rewrite MoveFacts.move_update by
      (done || (destruct (KeyFacts.cli_movement_lookup k t Hk) as
         [[_ ->] | [[_ ->] | [[_ ->] | [_ ->]]]]; vm_compute; repeat (first [left; reflexivity|right]))).
    destruct (KeyFacts.cli_movement_lookup k t Hk) as
      [[_ ->] | [[_ ->] | [[_ ->] | [_ ->]]]]; unfold SpecSide.moved_pos; cbn [type cx cy];
      GameOps.eval_bits.
    + exists 0, 1. split; [done|]. do 3 f_equal; lia.
    + exists (-1), 0. split; [done|]. do 3 f_equal; lia.
    + exists 1, 0. split; [done|]. do 3 f_equal; lia.
    + exists 0, (-1). split; [done|]. do 3 f_equal; lia.
Qed.
Lemma X17_witness :
  CliCmdKey.map_key_to_command CliCmdKey.L_KEY 0 0 = KeyCommand (Cmd CmdType.RIGHT 0 0) /\
  exists dx dy, Z.abs dx + Z.abs dy = 1 /\
    update Scenarios.started (Some (Cmd CmdType.RIGHT 0 0)) =
    with_cursor Scenarios.started (clamp_pos (board Scenarios.started) (0 + dx, 0 + dy)).
Proof. apply X17_movement_key_update; vm_compute; reflexivity. Defined.

(** X18: iterating over a rectangular board raises nothing and lists
    exactly its cells with their values. *)
Theorem X18_board_iter_cells (b : BoardState.t) :
  rect b ->
  exists cells, board_iter b = Some cells /\
    forall x y v, (x, y, v) ∈ cells <-> get b x y = Some v.
Proof. apply IterFacts.board_iter_cells. Qed.
Lemma X18_witness :
  exists cells, board_iter (board Scenarios.game0) = Some cells /\
    forall x y v, (x, y, v) ∈ cells <-> get (board Scenarios.game0) x y = Some v.
Proof.
  apply X18_board_iter_cells. split; [vm_compute; reflexivity|]. vm_compute. repeat constructor.
Defined.

(** X19: [b == other] on a rectangular [b] raises nothing and is true
    exactly when [other] has every cell of [b] with the same value; cells
    of [other] outside [b] are not compared. *)
Theorem X19_board_eq (b other : BoardState.t) :
  rect b ->
  exists r, board_eq b other = Some r /\
    (r = true <-> forall x y v, get b x y = Some v -> get other x y = Some v).
Proof.
  intros Hr. unfold board_eq.
  destruct (IterFacts.all_cells_eq_spec b other (iter_index b)) as (r & Hr1 & Hiff).
  { intros ij Hin. by apply IterFacts.cell_at_some. }
  exists r. split; [done|]. rewrite Hiff. split.
  - intros H x y v Hg. apply (IterFacts.iter_cells b x y v Hr) in Hg as (ij & Hin & Hc).
    exact (H ij x y v Hin Hc).
  - intros H ij x y v Hin Hc. apply H. apply (IterFacts.iter_cells b x y v Hr). eauto.
Qed.
Lemma X19_witness :
  exists r, board_eq (board Scenarios.corner_revealed) (board Scenarios.started) = Some r /\
    (r = true <-> forall x y v, get (board Scenarios.corner_revealed) x y = Some v ->
                                get (board Scenarios.started) x y = Some v).
Proof.
  apply X19_board_eq. split; [vm_compute; reflexivity|]. vm_compute. repeat constructor.
Defined.

(** X20: [MineSweeper(width, height, difficulty)] raises [ValueError]
    exactly when the difficulty is outside [0..40] or a dimension is at most
    1 ([random.sample] never raises for those arguments). *)
Theorem X20_new_none_iff (w h d : Z) (l1 l2 : list pos) :
  MineSweeper.new w h d l1 l2 = None <-> ~ (0 <= d <= 40 /\ 1 < w /\ 1 < h).
Proof. apply NewFacts.new_none_iff. Qed.

End Extras.
